(** * godbms: the B-tree page codec, the tree controller and the commit protocol

    A shallow embedding of [internal/btree] (node layout, append, split,
    insert, merge eligibility, recursive delete) and of [internal/io]
    (the two-fsync commit and [KV.Delete]).

    Conventions.
    - A Go [uint16] is a [Z] in [0, 2^16); every arithmetic expression of
      the source is reduced with [u16].  Reduction is applied once per
      expression, which agrees with Go's step-by-step wrap-around for
      [+], [-] and [*].
    - A Go [[]byte] that is only read (a key, a value) is a [list byte].
    - A [BNode] is a slice that owns its backing array: the bytes below
      [len] and the bytes between [len] and [cap] are both kept, because
      Go bounds [node[lo:]] by [len] and [node[lo:hi]], [s[:n]] by [cap].
    - A panic (failed [assert], slice or index out of range) is the
      outcome [Panic]; there is no [recover] anywhere in the source. *)

From Stdlib Require Import ZArith Lia.
From Stdlib.Strings Require Import Byte.
From stdpp Require Import base option list gmap strings.

Open Scope Z_scope.

(** ** Outcomes of a Go call *)

Inductive result (A : Type) : Type :=
| Ok (a : A)      (* the call returned *)
| Panic           (* the call panicked *)
| NoFuel.         (* the bounded model ran out of steps *)
Arguments Ok {A} a.
Arguments Panic {A}.
Arguments NoFuel {A}.

#[global] Instance result_ret : MRet result := @Ok.
#[global] Instance result_bind : MBind result := λ A B f m,
  match m with
  | Ok a => f a
  | Panic => Panic
  | NoFuel => NoFuel
  end.

(** [assert(cond)] of bnode.go. *)
Definition assert (cond : bool) : result unit :=
  if cond then Ok () else Panic.

(** ** Machine integers and bytes *)

Definition u16 (z : Z) : Z := z mod 65536.
Definition u64 (z : Z) : Z := z mod 18446744073709551616.

Definition byte_to_Z (b : byte) : Z := Z.of_N (Byte.to_N b).

(** Go's conversion [byte(v)]: the low eight bits. *)
Definition byte_of_Z (z : Z) : byte :=
  default x00 (Byte.of_N (Z.to_N (z mod 256))).

(** [len(s)] for a slice that is only read. *)
Definition len (s : list byte) : Z := Z.of_nat (length s).

(** ** Slices over a node's backing array *)

Record BNode : Type := mkBNode {
  visible : list byte;   (* indices [0, len) *)
  spare : list byte      (* indices [len, cap) *)
}.

Definition backing (node : BNode) : list byte := visible node ++ spare node.
Definition blen (node : BNode) : Z := Z.of_nat (length (visible node)).
Definition bcap (node : BNode) : Z := Z.of_nat (length (backing node)).

Definition with_backing (node : BNode) (arr : list byte) : BNode :=
  mkBNode (take (length (visible node)) arr) (drop (length (visible node)) arr).

(** [BNode(make([]byte, n))]. *)
Definition make (n : Z) : BNode := mkBNode (replicate (Z.to_nat n) x00) [].

(** [BNode{}]. *)
Definition nilNode : BNode := mkBNode [] [].

(** A sub-slice of a node: where it starts in the backing array and its
    length.  Its capacity is [bcap node - w_off]. *)
Record window : Type := mkWindow { w_off : Z; w_len : Z }.

(** [node[pos:]] *)
Definition slice_from (node : BNode) (pos : Z) : result window :=
  if bool_decide (0 ≤ pos ≤ blen node)
  then Ok (mkWindow pos (blen node - pos)) else Panic.

(** [node[lo:hi]] *)
Definition slice_range (node : BNode) (lo hi : Z) : result window :=
  if bool_decide (0 ≤ lo ≤ hi ∧ hi ≤ bcap node)
  then Ok (mkWindow lo (hi - lo)) else Panic.

(** [w[:n]] *)
Definition reslice_to (node : BNode) (w : window) (n : Z) : result window :=
  if bool_decide (0 ≤ n ≤ bcap node - w_off w)
  then Ok (mkWindow (w_off w) n) else Panic.

(** [node[:n]], which changes the node's own length. *)
Definition truncate (node : BNode) (n : Z) : result BNode :=
  if bool_decide (0 ≤ n ≤ bcap node)
  then Ok (mkBNode (take (Z.to_nat n) (backing node))
                   (drop (Z.to_nat n) (backing node)))
  else Panic.

Definition read_byte (node : BNode) (i : Z) : result byte :=
  match backing node !! Z.to_nat i with
  | Some b => Ok b
  | None => Panic
  end.

Definition write_byte (node : BNode) (i : Z) (b : byte) : BNode :=
  with_backing node (<[Z.to_nat i := b]> (backing node)).

(** The bytes a window shows. *)
Definition read (node : BNode) (w : window) : list byte :=
  take (Z.to_nat (w_len w)) (drop (Z.to_nat (w_off w)) (backing node)).

(** [binary.LittleEndian.Uint16(w)] *)
Definition Uint16 (node : BNode) (w : window) : result Z :=
  assert (bool_decide (2 ≤ w_len w));;
  b0 ← read_byte node (w_off w);
  b1 ← read_byte node (w_off w + 1);
  Ok (Z.lor (byte_to_Z b0) (Z.shiftl (byte_to_Z b1) 8)).

(** [binary.LittleEndian.PutUint16(w, v)] *)
Definition PutUint16 (node : BNode) (w : window) (v : Z) : result BNode :=
  assert (bool_decide (2 ≤ w_len w));;
  Ok (write_byte (write_byte node (w_off w) (byte_of_Z v))
                 (w_off w + 1) (byte_of_Z (Z.shiftr v 8))).

(** [copy(w, src)]: copies [min(len(w), len(src))] bytes and never panics. *)
Definition copy (node : BNode) (w : window) (src : list byte) : BNode :=
  let n := Z.to_nat (Z.min (w_len w) (len src)) in
  let o := Z.to_nat (w_off w) in
  with_backing node
    (take o (backing node) ++ take n src ++ drop (o + n)%nat (backing node)).

(** An argument of type [[]byte] of a function that writes a node:
    either bytes that share no memory with that node, or a view of the
    very node that is being written ([knode.getKey(0)] handed to
    [nodeAppendKV(knode, ...)] in [BTree.Insert]).  A view is read when
    the code reads it, after the writes that precede the read. *)
Inductive bytes_arg : Type :=
| Own (bs : list byte)
| Alias (w : window).

Definition arg_len (a : bytes_arg) : Z :=
  match a with
  | Own bs => len bs
  | Alias w => w_len w
  end.

(** The contents of the argument at the moment [copy] reads it. *)
Definition arg_bytes (node : BNode) (a : bytes_arg) : list byte :=
  match a with
  | Own bs => bs
  | Alias w => read node w
  end.

(** ** internal/btree/bnode.go *)

Module btree.

Definition BNODE_NODE : Z := 1.
Definition BNODE_LEAF : Z := 2.

Definition BTREE_PAGE_SIZE : Z := 4096.
Definition BTREE_MAX_KEY_SIZE : Z := 1000.
Definition BTREE_MAX_VAL_SIZE : Z := 3000.
Definition HEADER : Z := 4.

Definition btype (node : BNode) : result Z :=
  w ← slice_range node 0 2; Uint16 node w.

Definition nkeys (node : BNode) : result Z :=
  w ← slice_range node 2 4; Uint16 node w.

Definition setHeader (node : BNode) (btype nkeys : Z) : result BNode :=
  w ← slice_range node 0 2;
  node ← PutUint16 node w btype;
  w ← slice_range node 2 4;
  PutUint16 node w nkeys.

Definition getPtr (node : BNode) (idx : Z) : result Z :=
  n ← nkeys node;
  assert (bool_decide (idx < n));;
  let pos := u16 (4 + 8 * idx) in
  w ← slice_from node pos;
  Uint16 node w.

Definition setPtr (node : BNode) (idx val : Z) : result BNode :=
  n ← nkeys node;
  assert (bool_decide (idx < n));;
  let pos := u16 (4 + 8 * idx) in
  w ← slice_from node pos;
  PutUint16 node w val.

Definition getOffset (node : BNode) (idx : Z) : result Z :=
  if bool_decide (idx = 0) then Ok 0
  else
    n ← nkeys node;
    let pos := u16 (4 + 8 * n + 2 * (idx - 1)) in
    w ← slice_from node pos;
    Uint16 node w.

Definition offsetPos (node : BNode) (idx : Z) : result Z :=
  n ← nkeys node;
  assert (bool_decide (1 ≤ idx) && bool_decide (idx ≤ n));;
  Ok (u16 (4 + 8 * n + 2 * (idx - 1))).

Definition setOffset (node : BNode) (idx offset : Z) : result BNode :=
  pos ← offsetPos node idx;
  w ← slice_from node pos;
  PutUint16 node w offset.

Definition kvPos (node : BNode) (idx : Z) : result Z :=
  n ← nkeys node;
  assert (bool_decide (idx ≤ n));;
  off ← getOffset node idx;
  Ok (u16 (4 + 8 * n + 2 * n + off)).

(** [getKey] as the sub-slice it returns ... *)
Definition getKey_view (node : BNode) (idx : Z) : result window :=
  n ← nkeys node;
  assert (bool_decide (idx < n));;
  pos ← kvPos node idx;
  w ← slice_from node pos;
  klen ← Uint16 node w;
  w ← slice_from node (u16 (pos + 4));
  reslice_to node w klen.

(** ... and as the bytes that sub-slice shows. *)
Definition getKey (node : BNode) (idx : Z) : result (list byte) :=
  w ← getKey_view node idx; Ok (read node w).

Definition getValue (node : BNode) (idx : Z) : result (list byte) :=
  n ← nkeys node;
  assert (bool_decide (idx < n));;
  pos ← kvPos node idx;
  w ← slice_from node (u16 (pos + 0));
  kLen ← Uint16 node w;
  w ← slice_from node (u16 (pos + 2));
  vLen ← Uint16 node w;
  w ← slice_from node (u16 (pos + 4 + kLen));
  w ← reslice_to node w vLen;
  Ok (read node w).

(** [nodeAppendKV(new, idx, ptr, key, val)], returning the new contents of
    [new].  Both size fields receive [len(key)], and the offset written at
    the end is the one of slot [idx] itself, as in the source.  [key] and
    [val] may be views of [new]: [copy] then takes the bytes the view
    shows at that moment, after the pointer and the size fields (and, for
    [val], the key) have been written. *)
Definition nodeAppendKV_arg (new : BNode) (idx ptr : Z)
    (key val : bytes_arg) : result BNode :=
  (* ptrs *)
  new ← setPtr new idx ptr;
  (* KeyValue position *)
  pos ← kvPos new idx;
  (* KeyValue sizes *)
  w ← slice_from new (u16 (pos + 0));
  new ← PutUint16 new w (u16 (arg_len key));
  w ← slice_from new (u16 (pos + 2));
  new ← PutUint16 new w (u16 (arg_len key));
  (* KeyValue data *)
  w ← slice_from new (u16 (pos + 4));
  let new := copy new w (arg_bytes new key) in
  w ← slice_from new (u16 (pos + 4 + u16 (arg_len key)));
  let new := copy new w (arg_bytes new val) in
  (* update the offset value for the next key *)
  off ← getOffset new idx;
  setOffset new idx (u16 (off + 4 + u16 (arg_len key + arg_len val))).

(** [nodeAppendKV] called with a key and a value that share no memory
    with [new]: the calls of [nodeAppendRange], [leafInsert], [leafUpdate],
    [nodeReplaceKidN] and of [Insert] on an empty tree, where [new] is a
    buffer made just before and the key and value are the caller's
    arguments, [nil], or views of another node.  The call of [Insert]
    that passes a view of the node it writes goes through
    [nodeAppendKV_arg]. *)
Definition nodeAppendKV (new : BNode) (idx ptr : Z)
    (key val : list byte) : result BNode :=
  nodeAppendKV_arg new idx ptr (Own key) (Own val).

Definition nbytes (node : BNode) : result Z :=
  n ← nkeys node; kvPos node n.

(** [nodeAppendRange]: the loop body runs for [i = 0 .. n-1]; [i < n]
    bounds [i] below 2^16, so [i++] never wraps and the loop makes exactly
    [n] rounds.  At every call in the source [new] is a buffer made just
    before the call, so the views of [old] it copies share no memory with
    [new]. *)
Fixpoint nodeAppendRange_from (rounds : nat) (i : Z)
    (new old : BNode) (dstNew srcOld : Z) : result BNode :=
  match rounds with
  | O => Ok new
  | S rounds =>
      let dst := u16 (dstNew + i) in
      let src := u16 (srcOld + i) in
      p ← getPtr old src;
      k ← getKey old src;
      v ← getValue old src;
      new ← nodeAppendKV new dst p k v;
      nodeAppendRange_from rounds (i + 1) new old dstNew srcOld
  end.

Definition nodeAppendRange (new old : BNode) (dstNew srcOld n : Z)
    : result BNode :=
  nodeAppendRange_from (Z.to_nat n) 0 new old dstNew srcOld.

Definition leafInsert (new old : BNode) (idx : Z) (key val : list byte)
    : result BNode :=
  n ← nkeys old;
  new ← setHeader new BNODE_LEAF (u16 (n + 1));
  new ← nodeAppendRange new old 0 0 idx;
  new ← nodeAppendKV new idx 0 key val;
  nodeAppendRange new old (u16 (idx + 1)) idx (u16 (n - idx)).

Definition leafUpdate (new old : BNode) (idx : Z) (key val : list byte)
    : result BNode :=
  n ← nkeys old;
  new ← setHeader new BNODE_LEAF n;
  new ← nodeAppendRange new old 0 0 idx;
  new ← nodeAppendKV new idx 0 key val;
  nodeAppendRange new old (u16 (idx + 1)) (u16 (idx + 1))
                  (u16 (n - (idx + 1))).

(** [bytes.Compare]: lexicographic order on unsigned bytes. *)
Fixpoint bytes_Compare (a b : list byte) : Z :=
  match a, b with
  | [], [] => 0
  | [], _ :: _ => -1
  | _ :: _, [] => 1
  | x :: a, y :: b =>
      if byte_to_Z x <? byte_to_Z y then -1
      else if byte_to_Z y <? byte_to_Z x then 1
      else bytes_Compare a b
  end.

(** [bytes.Equal] *)
Fixpoint bytes_Equal (a b : list byte) : bool :=
  match a, b with
  | [], [] => true
  | x :: a, y :: b => Byte.eqb x y && bytes_Equal a b
  | _, _ => false
  end.

(** [nodeLookupLE]: at most [nKeys] rounds; [i - 1] wraps to 65535 when
    [i = 0]. *)
Fixpoint nodeLookupLE_from (rounds : nat) (i : Z)
    (node : BNode) (key : list byte) : result Z :=
  match rounds with
  | O => Ok (u16 (i - 1))
  | S rounds =>
      k ← getKey node i;
      let cmp := bytes_Compare k key in
      if bool_decide (cmp = 0) then Ok i
      else if bool_decide (cmp > 0) then Ok (u16 (i - 1))
      else nodeLookupLE_from rounds (i + 1) node key
  end.

Definition nodeLookupLE (node : BNode) (key : list byte) : result Z :=
  nKeys ← nkeys node;
  nodeLookupLE_from (Z.to_nat nKeys) 0 node key.

(** The closure [left_bytes] of [nodeSplit2]. *)
Definition left_bytes (old : BNode) (nleft : Z) : result Z :=
  off ← getOffset old nleft;
  Ok (u16 (4 + 8 * nleft + 2 * nleft + off)).

(** The closure [right_bytes] of [nodeSplit2]. *)
Definition right_bytes (old : BNode) (nleft : Z) : result Z :=
  nb ← nbytes old;
  lb ← left_bytes old nleft;
  Ok (u16 (nb - lb + 4)).

(** [for left_bytes() > BTREE_PAGE_SIZE { nleft-- }] *)
Fixpoint split_shrink (fuel : nat) (old : BNode) (nleft : Z) : result Z :=
  match fuel with
  | O => NoFuel
  | S fuel =>
      lb ← left_bytes old nleft;
      if bool_decide (lb > BTREE_PAGE_SIZE)
      then split_shrink fuel old (u16 (nleft - 1))
      else Ok nleft
  end.

(** [for right_bytes() > BTREE_PAGE_SIZE { nleft++ }] *)
Fixpoint split_grow (fuel : nat) (old : BNode) (nleft : Z) : result Z :=
  match fuel with
  | O => NoFuel
  | S fuel =>
      rb ← right_bytes old nleft;
      if bool_decide (rb > BTREE_PAGE_SIZE)
      then split_grow fuel old (u16 (nleft + 1))
      else Ok nleft
  end.

(** The only state of either loop is the [uint16] counter [nleft], and
    [old] is not written: a loop that has tested its condition 65536 times
    without leaving has seen every value of [nleft] and never leaves.  So
    [NoFuel] from these loops stands for a Go loop that does not end. *)
Definition loop_fuel : nat := Z.to_nat 65536.

(** [nodeSplit2(left, right, old)], returning the contents of [left] and
    [right]. *)
Definition nodeSplit2 (left right old : BNode) : result (BNode * BNode) :=
  n ← nkeys old;
  assert (bool_decide (n >= 2));;
  (* the initial guess *)
  let nleft := n / 2 in
  (* try to fit the left half *)
  nleft ← split_shrink loop_fuel old nleft;
  assert (bool_decide (nleft >= 1));;
  nleft ← split_grow loop_fuel old nleft;
  assert (bool_decide (nleft < n));;
  let nright := u16 (n - nleft) in
  (* new nodes *)
  t ← btype old;
  left ← setHeader left t nleft;
  right ← setHeader right t nright;
  left ← nodeAppendRange left old 0 0 nleft;
  right ← nodeAppendRange right old 0 nleft nright;
  (* NOTE: the left half may still be too big *)
  rb ← nbytes right;
  assert (bool_decide (rb ≤ BTREE_PAGE_SIZE));;
  Ok (left, right).

(** [nodeSplit3(old)]: the count and the [[3]BNode] array. *)
Definition nodeSplit3 (old : BNode) : result (Z * list BNode) :=
  nb ← nbytes old;
  if bool_decide (nb ≤ BTREE_PAGE_SIZE) then
    old ← truncate old BTREE_PAGE_SIZE;
    Ok (1, [old; nilNode; nilNode]) (* not split *)
  else
    let left := make (2 * BTREE_PAGE_SIZE) in (* might be split later *)
    let right := make BTREE_PAGE_SIZE in
    '(left, right) ← nodeSplit2 left right old;
    lb ← nbytes left;
    if bool_decide (lb ≤ BTREE_PAGE_SIZE) then
      left ← truncate left BTREE_PAGE_SIZE;
      Ok (2, [left; right; nilNode])
    else
      (* left node still contains too many keys *)
      let leftLeft := make BTREE_PAGE_SIZE in
      let middle := make BTREE_PAGE_SIZE in
      '(leftLeft, middle) ← nodeSplit2 leftLeft middle left;
      llb ← nbytes leftLeft;
      assert (bool_decide (llb ≤ BTREE_PAGE_SIZE));;
      Ok (3, [leftLeft; middle; right]).

(** A Go [error] value: its message. *)
Definition error : Type := string.

Definition checkLimit (key value : list byte) : option error :=
  if bool_decide (len key >= BTREE_MAX_KEY_SIZE)
     && bool_decide (len value >= BTREE_MAX_VAL_SIZE)
  then Some "length of key or value too large!"%string
  else None.


(** *** The tree and its page callbacks (part_000)

    [BTree] carries three callbacks, [get], [new] and [del]; none of them
    is implemented in the repository.  They are taken as an interface
    over a store state [St]: each call may change the store and may
    panic.  [new] is taken to snapshot the page it is handed. *)

Class PageStore (St : Type) : Type := {
  store_get : St → Z → result (St * BNode);
  store_new : St → BNode → result (St * Z);
  store_del : St → Z → result St
}.

Record BTree (St : Type) : Type := mkBTree { root : Z; store : St }.
Arguments mkBTree {St} root store.
Arguments root {St} b.
Arguments store {St} b.

Section Controller.

Context {St : Type} `{PageStore St}.

(** [tree.get(id)], [tree.new(page)], [tree.del(id)] *)
Definition tree_get (tree : BTree St) (id : Z) : result (BTree St * BNode) :=
  '(s, page) ← store_get (store tree) id;
  Ok (mkBTree (root tree) s, page).

Definition tree_new (tree : BTree St) (page : BNode) : result (BTree St * Z) :=
  '(s, id) ← store_new (store tree) page;
  Ok (mkBTree (root tree) s, id).

Definition tree_del (tree : BTree St) (id : Z) : result (BTree St) :=
  s ← store_del (store tree) id;
  Ok (mkBTree (root tree) s).

(** The [for i, node := range kids] loop of [nodeReplaceKidN]. *)
Fixpoint nodeReplaceKidN_kids (tree : BTree St) (new : BNode) (idx i : Z)
    (kids : list BNode) : result (BTree St * BNode) :=
  match kids with
  | [] => Ok (tree, new)
  | node :: kids =>
      '(tree, p) ← tree_new tree node;
      k ← getKey node 0;
      new ← nodeAppendKV new (u16 (idx + u16 i)) (u16 p) k [];
      nodeReplaceKidN_kids tree new idx (i + 1) kids
  end.

Definition nodeReplaceKidN (tree : BTree St) (new old : BNode) (idx : Z)
    (kids : list BNode) : result (BTree St * BNode) :=
  let inc := u16 (Z.of_nat (length kids)) in
  n ← nkeys old;
  new ← setHeader new BNODE_NODE (u16 (n + inc - 1));
  new ← nodeAppendRange new old 0 0 idx;
  '(tree, new) ← nodeReplaceKidN_kids tree new idx 0 kids;
  new ← nodeAppendRange new old (u16 (idx + inc)) (u16 (idx + 1))
                         (u16 (n - (idx + 1)));
  Ok (tree, new).

(** [treeInsert]; [depth] bounds the recursion, which follows child
    pointers through the store and need not end on a cyclic store. *)
Fixpoint treeInsert (depth : nat) (tree : BTree St) (node : BNode)
    (key val : list byte) : result (BTree St * BNode) :=
  match depth with
  | O => NoFuel
  | S depth =>
      (* the extra size allows it to exceed 1 page temporarily *)
      let new := make (2 * BTREE_PAGE_SIZE) in
      idx ← nodeLookupLE node key;
      t ← btype node;
      if bool_decide (t = BNODE_LEAF) then
        k ← getKey node idx;
        if bytes_Equal key k then
          new ← leafUpdate new node idx key val;
          Ok (tree, new)
        else
          new ← leafInsert new node (u16 (idx + 1)) key val;
          Ok (tree, new)
      else if bool_decide (t = BNODE_NODE) then
        (* recursive insertion to the kid node *)
        kptr ← getPtr node idx;
        '(tree, child) ← tree_get tree (u64 kptr);
        '(tree, knode) ← treeInsert depth tree child key val;
        (* after insertion split the result *)
        '(nsplit, split) ← nodeSplit3 knode;
        (* deallocate the old kid node *)
        tree ← tree_del tree (u64 kptr);
        (* update the kid links *)
        nodeReplaceKidN tree new node idx (take (Z.to_nat nsplit) split)
      else Panic (* bad node! *)
  end.

(** The [for i, knode := range split[:nsplit]] loop of [Insert].  The
    entry is appended to [knode] itself, with a key that is a view of
    [knode]; the loop never touches [root], and the written [knode] is not
    read again. *)
Fixpoint Insert_link (tree : BTree St) (i : Z) (kids : list BNode)
    : result (BTree St) :=
  match kids with
  | [] => Ok tree
  | knode :: kids =>
      '(tree, ptr) ← tree_new tree knode;
      key ← getKey_view knode 0;
      nodeAppendKV_arg knode (u16 i) (u16 ptr) (Alias key) (Own []);;
      Insert_link tree (i + 1) kids
  end.

(** [BTree.Insert]: the tree after the call and the returned [error]
    ([None] is [nil]). *)
Definition Insert (depth : nat) (tree : BTree St) (key value : list byte)
    : result (BTree St * option error) :=
  match checkLimit key value with
  | Some err => Ok (tree, Some err)
  | None =>
      if bool_decide (root tree = 0) then
        let root := make BTREE_PAGE_SIZE in
        root ← setHeader root BNODE_LEAF 2;
        root ← nodeAppendKV root 0 0 [] [];
        root ← nodeAppendKV root 0 1 key value;
        '(tree, id) ← tree_new tree root;
        Ok (mkBTree id (store tree), None)
      else
        '(tree, page) ← tree_get tree (root tree);
        '(tree, node) ← treeInsert depth tree page key value;
        '(nsplit, split) ← nodeSplit3 node;
        tree ← tree_del tree (root tree);
        if bool_decide (nsplit > 1) then
          let root := make BTREE_PAGE_SIZE in
          root ← setHeader root BNODE_NODE nsplit;
          tree ← Insert_link tree 0 (take (Z.to_nat nsplit) split);
          '(tree, id) ← tree_new tree root;
          Ok (mkBTree id (store tree), None)
        else
          split0 ← from_option Ok Panic (split !! 0%nat);
          '(tree, id) ← tree_new tree split0;
          Ok (mkBTree id (store tree), None)
  end.

(** [shouldMerge]: the direction (-1 left, +1 right, 0 none) and the
    sibling.  The right-hand test adds the sibling's type tag, where the
    left-hand test adds its size. *)
Definition shouldMerge (tree : BTree St) (node : BNode) (idx : Z)
    (updated : BNode) : result (BTree St * (Z * BNode)) :=
  ub ← nbytes updated;
  if bool_decide (ub > BTREE_PAGE_SIZE / 4) then Ok (tree, (0, nilNode))
  else
    '(tree, fits) ←
      (if bool_decide (idx > 0) then
         p ← getPtr node (u16 (idx - 1));
         '(tree, sibling) ← tree_get tree (u64 p);
         sb ← nbytes sibling;
         ub ← nbytes updated;
         let merged := u16 (sb + ub - HEADER) in
         if bool_decide (merged ≤ BTREE_PAGE_SIZE)
         then Ok (tree, Some sibling)
         else Ok (tree, None)
       else Ok (tree, None));
    match fits with
    | Some sibling => Ok (tree, (-1, sibling)) (* left *)
    | None =>
        n ← nkeys node;
        if bool_decide (u16 (idx + 1) < n) then
          p ← getPtr node (u16 (idx + 1));
          '(tree, sibling) ← tree_get tree (u64 p);
          t ← btype sibling;
          ub ← nbytes updated;
          let merged := u16 (t + ub - HEADER) in
          if bool_decide (merged ≤ BTREE_PAGE_SIZE)
          then Ok (tree, (1, sibling))
          else Ok (tree, (0, nilNode))
        else Ok (tree, (0, nilNode))
    end.

(** [treeDelete], [nodeMerge] and [nodeReplace2Kid] are declared without
    a body in the repository; [nodeDelete] is stated over whatever they
    are.  [nodeMerge] and [nodeReplace2Kid] return the contents of their
    first argument. *)
Variable treeDelete :
  BTree St → BNode → list byte → result (BTree St * BNode).
Variable nodeMerge : BNode → BNode → BNode → result BNode.
Variable nodeReplace2Kid :
  BNode → BNode → Z → Z → list byte → result BNode.

(** [nodeDelete] from [if len(updated) == 0] on. *)
Definition nodeDelete_splice (tree : BTree St) (node : BNode) (idx kptr : Z)
    (updated : BNode) : result (BTree St * BNode) :=
  if bool_decide (blen updated = 0) then Ok (tree, nilNode) (* not found *)
  else
    tree ← tree_del tree (u64 kptr);
    let new := make BTREE_PAGE_SIZE in
    '(tree, (mergeDir, sibling)) ← shouldMerge tree node idx updated;
    if bool_decide (mergeDir < 0) then
      let merged := make BTREE_PAGE_SIZE in
      merged ← nodeMerge merged sibling updated;
      p ← getPtr node (u16 (idx - 1));
      tree ← tree_del tree (u64 p);
      '(tree, id) ← tree_new tree merged;
      k ← getKey merged 0;
      new ← nodeReplace2Kid new node (u16 (idx - 1)) id k;
      Ok (tree, new)
    else if bool_decide (mergeDir < 0) then
      let merged := make BTREE_PAGE_SIZE in
      merged ← nodeMerge merged sibling updated;
      p ← getPtr node (u16 (idx + 1));
      tree ← tree_del tree (u64 p);
      '(tree, id) ← tree_new tree merged;
      k ← getKey merged 0;
      new ← nodeReplace2Kid new node idx id k;
      Ok (tree, new)
    else
      un ← (if bool_decide (mergeDir = 0) then nkeys updated else Ok 0);
      if bool_decide (mergeDir = 0) && bool_decide (un = 0) then
        n ← nkeys node;
        assert (bool_decide (n = 1) && bool_decide (idx = 0));;
        new ← setHeader new BNODE_NODE 0;
        Ok (tree, new)
      else if bool_decide (mergeDir = 0) && bool_decide (un > 0) then
        nodeReplaceKidN tree new node idx [updated]
      else Ok (tree, new).

(** [nodeDelete]: the child handed to [treeDelete] is [tree.get(idx)]. *)
Definition nodeDelete (tree : BTree St) (node : BNode) (idx : Z)
    (key : list byte) : result (BTree St * BNode) :=
  kptr ← getPtr node idx;
  '(tree, child) ← tree_get tree (u64 idx);
  '(tree, updated) ← treeDelete tree child key;
  nodeDelete_splice tree node idx kptr updated.

End Controller.


End btree.

(** ** internal/io (part_001, part_002) *)

Module io.

Import btree.

Record KV (St : Type) : Type := mkKV {
  Path : string;
  fd : Z;
  tree : BTree St
}.
Arguments mkKV {St} Path fd tree.
Arguments Path {St} k.
Arguments fd {St} k.
Arguments tree {St} k.

(** The calls the commit protocol makes, each logged with the [error] it
    returned ([None] is [nil]). *)
Inductive call : Type :=
| CallWritePages
| CallFsync (fd : Z)
| CallUpdateRoot.

Definition event : Type := call * option error.

Section Commit.

Context {St Sys : Type}.

(** The database handle, the state of the operating system behind the
    file descriptor, and the calls made so far. *)
Record world : Type := mkWorld {
  db : KV St;
  sys : Sys;
  log : list event
}.

(** [writePages] and [updateRoot] are declared without a body in the
    repository and [syscall.Fsync] is the operating system's; the
    protocol is stated over whatever they are. *)
Variable writePages : KV St → Sys → KV St * Sys * option error.
Variable Fsync : Z → Sys → Sys * option error.
Variable updateRoot : KV St → Sys → KV St * Sys * option error.

Definition call_writePages (w : world) : world * option error :=
  let '(d, s, err) := writePages (db w) (sys w) in
  (mkWorld d s (log w ++ [(CallWritePages, err)]), err).

Definition call_Fsync (w : world) : world * option error :=
  let '(s, err) := Fsync (fd (db w)) (sys w) in
  (mkWorld (db w) s (log w ++ [(CallFsync (fd (db w)), err)]), err).

Definition call_updateRoot (w : world) : world * option error :=
  let '(d, s, err) := updateRoot (db w) (sys w) in
  (mkWorld d s (log w ++ [(CallUpdateRoot, err)]), err).

Definition updateFile (w : world) : world * option error :=
  (* write new nodes *)
  let '(w, err) := call_writePages w in
  match err with
  | Some e => (w, Some e)
  | None =>
      (* fsync to enforce the order between 1 and 3 *)
      let '(w, err) := call_Fsync w in
      match err with
      | Some e => (w, Some e)
      | None =>
          (* update the root pointer atomically *)
          let '(w, err) := call_updateRoot w in
          match err with
          | Some e => (w, Some e)
          | None => call_Fsync w
          end
      end
  end.

(** [BTree.Delete] is declared without a body, with the results
    [(bool, error)] (part_000, line 51). *)
Variable tree_Delete :
  BTree St → list byte → result (BTree St * (bool * option error)).

Definition set_tree (w : world) (t : BTree St) : world :=
  mkWorld (mkKV (Path (db w)) (fd (db w)) t) (sys w) (log w).

(** [KV.Delete].  Its first line, [deleted := db.tree.Delete(key)], has
    one variable for the two results of [Delete]: the Go compiler rejects
    it ("assignment mismatch"), so the function as written has no
    run-time behaviour.  It is read here the one way the line can be
    completed without adding code: [deleted] is the [bool], and the
    [error] of [Delete], for which the source has no variable and no
    test, is dropped.  What is proved of [KV_Delete] is proved of that
    reading. *)
Definition KV_Delete (w : world) (key : list byte)
    : result (world * (bool * option error)) :=
  '(t, (deleted, _)) ← tree_Delete (tree (db w)) key;
  let '(w, err) := updateFile (set_tree w t) in
  Ok (w, (deleted, err)).

End Commit.

Arguments world : clear implicits.
Arguments mkWorld {St Sys} db sys log.

End io.

(** ** Pages and a page store for worked inputs *)

Module demo.

Import btree.

(** A little-endian 16-bit field and an 8-byte pointer slot, as bytes. *)
Definition le16 (v : Z) : list byte :=
  [byte_of_Z v; byte_of_Z (Z.shiftr v 8)].
Definition ptr_slot (p : Z) : list byte := le16 p ++ replicate 6 x00.

(** A buffer of [n] bytes, [len = cap = n], that starts with [prefix] and
    is zero after it. *)
Definition buffer (n : Z) (prefix : list byte) : BNode :=
  mkBNode (prefix ++ replicate (Z.to_nat n - length prefix) x00) [].

(** One encoded entry: key_size, val_size, key, val. *)
Definition entry (key val : list byte) : list byte :=
  le16 (len key) ++ le16 (len val) ++ key ++ val.

(** The calls a store has served. *)
Inductive store_call : Type :=
| Get (id : Z)
| New (id : Z)
| Del (id : Z).

(** Modelled from the spec: the page store behind [BTree.get], [BTree.new]
    and [BTree.del], which the repository does not implement.  [get]
    fails fatally on an unknown ID, [allocate] hands out the next ID, and
    [free] forgets the page.  Every call is recorded.  It only serves to
    run the tree code on the worked inputs below. *)
Record MemStore : Type := mkMemStore {
  pages : gmap Z BNode;
  next_id : Z;
  calls : list store_call
}.

#[global] Instance MemStore_PageStore : PageStore MemStore := {|
  store_get s id :=
    match pages s !! id with
    | Some page => Ok (mkMemStore (pages s) (next_id s) (calls s ++ [Get id]), page)
    | None => Panic
    end;
  store_new s page :=
    Ok (mkMemStore (<[next_id s := page]> (pages s)) (u64 (next_id s + 1))
                   (calls s ++ [New (next_id s)]),
        next_id s);
  store_del s id :=
    Ok (mkMemStore (delete id (pages s)) (next_id s) (calls s ++ [Del id]))
|}.

(** A leaf header with three slots on an otherwise zero page. *)
Definition fresh3 : BNode := buffer 4096 (le16 BNODE_LEAF ++ le16 3).

(** A leaf of three entries, each a one-byte key with a 1500-byte value,
    in the 8192-byte scratch buffer [treeInsert] builds: 4549 bytes. *)
Definition val1500 : list byte := replicate 1500 "x"%byte.
Definition wide_leaf : BNode :=
  buffer 8192
    (le16 BNODE_LEAF ++ le16 3
     ++ ptr_slot 0 ++ ptr_slot 0 ++ ptr_slot 0
     ++ le16 1505 ++ le16 3010 ++ le16 4515
     ++ entry ["a"%byte] val1500
     ++ entry ["b"%byte] val1500
     ++ entry ["c"%byte] val1500).

(** An internal node with two children, pages 5 and 6, under the keys
    (empty) and "m". *)
Definition parent : BNode :=
  buffer 4096
    (le16 BNODE_NODE ++ le16 2
     ++ ptr_slot 5 ++ ptr_slot 6
     ++ le16 4 ++ le16 9
     ++ entry [] []
     ++ entry ["m"%byte] []).

(** A leaf whose single entry has a 481-byte value: 500 bytes in all. *)
Definition small_leaf : BNode :=
  buffer 4096
    (le16 BNODE_LEAF ++ le16 1 ++ ptr_slot 0 ++ le16 486
     ++ entry ["a"%byte] (replicate 481 "x"%byte)).

(** A leaf whose single entry has a 3981-byte value: 4000 bytes in all. *)
Definition big_leaf : BNode :=
  buffer 4096
    (le16 BNODE_LEAF ++ le16 1 ++ ptr_slot 0 ++ le16 3986
     ++ entry ["m"%byte] (replicate 3981 "y"%byte)).

(** A leaf holding the single key "z". *)
Definition other_leaf : BNode :=
  buffer 4096
    (le16 BNODE_LEAF ++ le16 1 ++ ptr_slot 0 ++ le16 6
     ++ entry ["z"%byte] ["!"%byte]).

(** The store under [parent]: page 5 is [small_leaf], page 6 is
    [big_leaf], and page 1 is a page of some other tree. *)
Definition store0 : MemStore :=
  mkMemStore (<[1 := other_leaf]> (<[5 := small_leaf]> (<[6 := big_leaf]> ∅)))
             7 [].
Definition tree0 : BTree MemStore := mkBTree 4 store0.

(** Stand-ins for the operating system and the unimplemented helpers of
    [internal/io]: the system state counts the fsyncs that succeeded; the
    first fsync succeeds and every later one reports an I/O error; the
    tree's [Delete] does not find the key and leaves the tree alone. *)
Definition writePages_ok (d : io.KV MemStore) (s : Z)
    : io.KV MemStore * Z * option error := (d, s, None).
Definition updateRoot_ok (d : io.KV MemStore) (s : Z)
    : io.KV MemStore * Z * option error := (d, s, None).
Definition Fsync_once (fd : Z) (s : Z) : Z * option error :=
  if bool_decide (s = 0) then (1, None)
  else (s, Some "input/output error"%string).
Definition Fsync_never (fd : Z) (s : Z) : Z * option error :=
  (s, Some "input/output error"%string).
Definition Delete_absent (t : BTree MemStore) (key : list byte)
    : result (BTree MemStore * (bool * option error)) :=
  Ok (t, (false, None)).

(** Stand-ins that leave a mark: the page writes add 10 to the system
    state, the root update adds 100, a successful fsync adds 1, and an
    fsync after the root update reports an I/O error. *)
Definition writePages_mark (d : io.KV MemStore) (s : Z)
    : io.KV MemStore * Z * option error := (d, s + 10, None).
Definition updateRoot_mark (d : io.KV MemStore) (s : Z)
    : io.KV MemStore * Z * option error := (d, s + 100, None).
Definition Fsync_mark (fd : Z) (s : Z) : Z * option error :=
  if bool_decide (s < 100) then (s + 1, None)
  else (s, Some "input/output error"%string).

Definition world0 : io.world MemStore Z :=
  io.mkWorld (io.mkKV "/tmp/db" 3 tree0) 0 [].


End demo.


(** ** The node format, written out

    internal/io/store.go repeats the codec, the node algorithms,
    [treeInsert] and [nodeReplaceKidN] of bnode.go and part_000 word for
    word; the definitions of module [btree] stand for both copies.

    The layout comment at the top of bnode.go:
    [| type 2B | nkeys 2B | pointers nkeys x 8B | offsets nkeys x 2B |
    key-values | unused |], each key-value being
    [| key_size 2B | val_size 2B | key | val |].  [encode] lays a list of
    items out in that format; the offset stored for slot [i] (1-based) is
    the size of the first [i] key-values, which is where [kvPos] looks
    for it. *)

Module layout.

Import btree demo.

Record item : Type := mkItem {
  i_ptr : Z;
  i_key : list byte;
  i_val : list byte
}.

Definition le64 (p : Z) : list byte :=
  le16 p ++ le16 (Z.shiftr p 16) ++ le16 (Z.shiftr p 32)
  ++ le16 (Z.shiftr p 48).

Definition item_size (e : item) : Z := 4 + len (i_key e) + len (i_val e).

Definition kv_size (es : list item) : Z :=
  foldr (λ e acc, item_size e + acc) 0 es.

Fixpoint offsets (acc : Z) (es : list item) : list Z :=
  match es with
  | [] => []
  | e :: es => (acc + item_size e) :: offsets (acc + item_size e) es
  end.

Definition encode (t : Z) (es : list item) : list byte :=
  le16 t ++ le16 (Z.of_nat (length es))
  ++ concat (map (λ e, le64 (i_ptr e)) es)
  ++ concat (map le16 (offsets 0 es))
  ++ concat (map (λ e, entry (i_key e) (i_val e)) es).

Definition encoded_size (es : list item) : Z :=
  4 + 10 * Z.of_nat (length es) + kv_size es.

(** A node whose visible bytes are an encoding followed by [unused], over
    a backing array that goes on with [spare]. *)
Definition node_of (t : Z) (es : list item) (unused spare : list byte)
    : BNode :=
  mkBNode (encode t es ++ unused) spare.

End layout.

(** ** internal/io: createFileSync (part_001) *)

Module io_file.

Import btree.

(** The system calls [createFileSync] makes. *)
Inductive syscall : Type :=
| SysOpen (path : string) (flags mode : Z)
| SysOpenat (dirfd : Z) (name : string) (flags mode : Z)
| SysClose (fd : Z).

Section CreateFile.

Context {Sys : Type}.

(** The operating system, and the calls made so far. *)
Record os : Type := mkOs { os_state : Sys; os_calls : list syscall }.

(** The flag constants of [os] and [syscall], [path.Dir], [path.Base],
    [fmt.Errorf] with one operand, and the three system calls belong to
    Go's library and to the platform; the function is stated over
    whatever they are. *)
Variables O_RDONLY O_DIRECTORY O_RDWR O_CREATE : Z.
Variables path_Dir path_Base : string → string.
Variable Errorf : string → error → error.
Variable sys_Open : string → Z → Z → Sys → Sys * (Z * option error).
Variable sys_Openat :
  Z → string → Z → Z → Sys → Sys * (Z * option error).
Variable sys_Close : Z → Sys → Sys * option error.

(** [createFileSync(file)]: the returned descriptor and [error].  The
    deferred [syscall.Close(dirfd)] runs once the results are set, on
    both returns that follow it; what it returns is dropped. *)
Definition createFileSync (file : string) (o : os)
    : os * (Z * option error) :=
  (* obtain the directory fd *)
  let flags := Z.lor O_RDONLY O_DIRECTORY in
  let '(s, (dirfd, err)) := sys_Open (path_Dir file) flags 420 (os_state o) in
  let o := mkOs s (os_calls o ++ [SysOpen (path_Dir file) flags 420]) in
  match err with
  | Some e => (o, (-1, Some (Errorf "failed to open directory: %w" e)))
  | None =>
      (* open or create the file *)
      let flags := Z.lor O_RDWR O_CREATE in
      let '(s, (fd, err)) :=
        sys_Openat dirfd (path_Base file) flags 420 (os_state o) in
      let o :=
        mkOs s (os_calls o ++ [SysOpenat dirfd (path_Base file) flags 420]) in
      let results :=
        match err with
        | Some e => (-1, Some (Errorf "fsync directory: %W" e))
        | None => (fd, None)
        end in
      (* defer syscall.Close(dirfd) *)
      let '(s, _) := sys_Close dirfd (os_state o) in
      (mkOs s (os_calls o ++ [SysClose dirfd]), results)
  end.

End CreateFile.

Arguments os : clear implicits.
Arguments mkOs {Sys} os_state os_calls.

End io_file.

(** ** Nodes that agree on a prefix *)

(** [same_below p a b]: [b] has the length and capacity of [a] and the
    same bytes at every index below [p]. *)
Definition same_below (p : Z) (a b : BNode) : Prop :=
  blen b = blen a ∧ bcap b = bcap a
  ∧ ∀ j, 0 ≤ j < p → read_byte b j = read_byte a j.

(** ** Vocabulary of the statements *)

(** [finite m]: the call [m] ends, by returning or by panicking. *)
Definition finite {A : Type} (m : result A) : Prop := m ≠ NoFuel.

(** [fails m]: the call [m] does not return. *)
Definition fails {A : Type} (m : result A) : Prop := ∀ a, m ≠ Ok a.

(** The merge test the left sibling gets, [sibling.nbytes() +
    updated.nbytes() - HEADER <= BTREE_PAGE_SIZE], as a test of its own:
    what the right sibling is to be measured by. *)
Definition merge_fits (sibling updated : BNode) : result bool :=
  sb ← btree.nbytes sibling;
  ub ← btree.nbytes updated;
  Ok (bool_decide (u16 (sb + ub - btree.HEADER) ≤ btree.BTREE_PAGE_SIZE)).

(** The calls one run of the commit protocol may make, with the [error]
    the run returns: page writes failed; page writes done, first fsync
    failed; both done, root update failed; all three done, and the second
    fsync decides. *)
Definition commit_calls (evs : list io.event) (err : option btree.error)
    : Prop :=
  (∃ e, evs = [(io.CallWritePages, Some e)] ∧ err = Some e)
  ∨ (∃ fd1 e, evs = [(io.CallWritePages, None); (io.CallFsync fd1, Some e)]
              ∧ err = Some e)
  ∨ (∃ fd1 e, evs = [(io.CallWritePages, None); (io.CallFsync fd1, None);
                     (io.CallUpdateRoot, Some e)]
              ∧ err = Some e)
  ∨ (∃ fd1 fd2, evs = [(io.CallWritePages, None); (io.CallFsync fd1, None);
                       (io.CallUpdateRoot, None); (io.CallFsync fd2, err)]).

(** A [[]byte] argument that is a view of [node] lies within its
    backing array. *)
Definition view_within (node : BNode) (a : bytes_arg) : Prop :=
  match a with
  | Own _ => True
  | Alias w => 0 ≤ w_off w ∧ 0 ≤ w_len w ∧ w_off w + w_len w ≤ bcap node
  end.

(** A [[]byte] argument shares no byte with the indices [lo, hi) of the
    node that is written: it is memory of its own, or a view that ends at
    or before [lo] or starts at or after [hi]. *)
Definition view_clear (a : bytes_arg) (lo hi : Z) : Prop :=
  match a with
  | Own _ => True
  | Alias w => w_off w + w_len w ≤ lo ∨ hi ≤ w_off w
  end.

(** * Properties *)

Import btree demo.

(** ** Calls that return or panic *)

Lemma finite_Ok {A} (a : A) : finite (Ok a).
Proof. discriminate. Qed.

Lemma finite_Panic {A} : finite (@Panic A).
Proof. discriminate. Qed.

Lemma finite_bind {A B} (m : result A) (f : A → result B) :
  finite m → (∀ a, m = Ok a → finite (f a)) → finite (m ≫= f).
Proof.
  intros Hm Hf. destruct m as [a| |]; cbn.
  - by apply Hf.
  - discriminate.
  - by destruct Hm.
Qed.

Lemma finite_assert c : finite (assert c).
Proof. by destruct c. Qed.

(** A call that ends, followed by code that always panics, panics. *)
Lemma bind_always_panics {A B} (m : result A) (f : A → result B) :
  finite m → (∀ a, f a = Panic) → m ≫= f = Panic.
Proof.
  intros Hm Hf. destruct m as [a| |]; cbn; [apply Hf | done | by destruct Hm].
Qed.

Create HintDb finite discriminated.
#[local] Hint Resolve finite_Ok finite_Panic finite_assert : finite.

Ltac finite_step :=
  match goal with
  | |- finite (_ ≫= _) => apply finite_bind; [ | intros ? _ ]
  | |- finite (if ?c then _ else _) => destruct c
  | |- finite (match ?x with _ => _ end) => destruct x
  | |- finite _ => cbv zeta
  end.
Ltac finite_tac := repeat first [ solve [ auto with finite ] | finite_step ].

Lemma finite_slice_from node pos : finite (slice_from node pos).
Proof. unfold slice_from. finite_tac. Qed.

Lemma finite_slice_range node lo hi : finite (slice_range node lo hi).
Proof. unfold slice_range. finite_tac. Qed.

Lemma finite_reslice_to node w n : finite (reslice_to node w n).
Proof. unfold reslice_to. finite_tac. Qed.

Lemma finite_read_byte node i : finite (read_byte node i).
Proof. unfold read_byte. finite_tac. Qed.
#[local] Hint Resolve finite_slice_from finite_slice_range finite_reslice_to
  finite_read_byte : finite.

Lemma finite_Uint16 node w : finite (Uint16 node w).
Proof. unfold Uint16. finite_tac. Qed.

Lemma finite_PutUint16 node w v : finite (PutUint16 node w v).
Proof. unfold PutUint16. finite_tac. Qed.
#[local] Hint Resolve finite_Uint16 finite_PutUint16 : finite.

Lemma finite_btype node : finite (btype node).
Proof. unfold btype. finite_tac. Qed.

Lemma finite_nkeys node : finite (nkeys node).
Proof. unfold nkeys. finite_tac. Qed.
#[local] Hint Resolve finite_btype finite_nkeys : finite.

Lemma finite_setHeader node t n : finite (setHeader node t n).
Proof. unfold setHeader. finite_tac. Qed.

Lemma finite_getPtr node idx : finite (getPtr node idx).
Proof. unfold getPtr. finite_tac. Qed.

Lemma finite_setPtr node idx v : finite (setPtr node idx v).
Proof. unfold setPtr. finite_tac. Qed.

Lemma finite_getOffset node idx : finite (getOffset node idx).
Proof. unfold getOffset. finite_tac. Qed.
#[local] Hint Resolve finite_setHeader finite_getPtr finite_setPtr
  finite_getOffset : finite.

Lemma finite_kvPos node idx : finite (kvPos node idx).
Proof. unfold kvPos. finite_tac. Qed.
#[local] Hint Resolve finite_kvPos : finite.

Lemma finite_getKey node idx : finite (getKey node idx).
Proof. unfold getKey, getKey_view. finite_tac. Qed.

Lemma finite_getValue node idx : finite (getValue node idx).
Proof. unfold getValue. finite_tac. Qed.
#[local] Hint Resolve finite_getKey finite_getValue : finite.

(** ** Appending at slot 0 *)

(** [offsetPos] asserts [1 <= idx]: there is no offset to set for
    slot 0. *)
Lemma setOffset_slot0 node offset : setOffset node 0 offset = Panic.
Proof.
  unfold setOffset, offsetPos.
  destruct (nkeys node) as [n| |] eqn:Hn; cbn; try done.
  by destruct (finite_nkeys node).
Qed.

(** [nodeAppendKV] ends with [setOffset(idx, ...)], so it cannot append at
    slot 0, whatever the node, the pointer, the key and the value. *)
Lemma nodeAppendKV_arg_slot0 new ptr key val :
  nodeAppendKV_arg new 0 ptr key val = Panic.
Proof.
  unfold nodeAppendKV_arg.
  repeat first
    [ apply setOffset_slot0
    | apply bind_always_panics; [ solve [ auto with finite ] | intros ? ]
    | progress cbv zeta ].
Qed.

Lemma nodeAppendKV_slot0 new ptr key val :
  nodeAppendKV new 0 ptr key val = Panic.
Proof. apply nodeAppendKV_arg_slot0. Qed.

(** C1.  The claim: appending at slot [i] sets [offsets[i+1]] to
    [offsets[i] + 4 + |k| + |v|] and leaves [offsets[i]] alone, for every
    [i], 0 included.  The code: at slot 0 the append panics for every
    node, pointer, key and value; at slot 1 of a fresh three-slot leaf,
    appending "k" with "vw" moves [offsets[1]] from 0 to 7 and leaves
    [offsets[2]] at 0. *)
Theorem nodeAppendKV_sets_offset_of_own_slot :
  (∀ new ptr key val, nodeAppendKV new 0 ptr key val = Panic) ∧
  getOffset fresh3 1 = Ok 0 ∧
  (node ← nodeAppendKV fresh3 1 0 ["k"%byte] ["v"%byte; "w"%byte];
   o1 ← getOffset node 1;
   o2 ← getOffset node 2;
   Ok (o1, o2)) = Ok (7, 0).
Proof.
  split; [exact nodeAppendKV_slot0 | split; vm_compute; reflexivity].
Qed.

(** C2.  The claim: after appending [(k, v)] at slot [i], [getKey(i) = k]
    and [getValue(i) = v].  The code: on a fresh three-slot leaf,
    appending "k" with "vw" at slot 1 writes the size fields 1 and 1 (the
    key's length twice) at the entry's position 34, and then reads slot 1
    back as the empty key and the empty value, because the slot's own
    offset has moved. *)
Theorem nodeAppendKV_read_back_differs :
  (node ← nodeAppendKV fresh3 1 0 ["k"%byte] ["v"%byte; "w"%byte];
   k ← getKey node 1;
   v ← getValue node 1;
   Ok (read node (mkWindow 34 7), k, v))
  = Ok ([x01; x00; x01; x00; "k"%byte; "v"%byte; "w"%byte], [], []).
Proof. vm_compute. reflexivity. Qed.

(** ** Splitting *)

Lemma fails_Panic {A} : fails (@Panic A).
Proof. intros a. discriminate. Qed.

Lemma fails_bind {A B} (m : result A) (f : A → result B) :
  (∀ a, m = Ok a → fails (f a)) → fails (m ≫= f).
Proof.
  intros Hf b. destruct m as [a| |]; cbn; try discriminate.
  by apply Hf.
Qed.

Lemma assert_Ok c u : assert c = Ok u → c = true.
Proof. by destruct c. Qed.

Lemma byte_to_Z_range b : 0 ≤ byte_to_Z b < 256.
Proof.
  unfold byte_to_Z. pose proof (Byte.to_N_bounded b). lia.
Qed.

Lemma Uint16_range node w v : Uint16 node w = Ok v → 0 ≤ v < 65536.
Proof.
  unfold Uint16.
  destruct (assert _) as [[]| |]; cbn; try discriminate.
  destruct (read_byte node (w_off w)) as [b0| |]; cbn; try discriminate.
  destruct (read_byte node (w_off w + 1)) as [b1| |]; cbn; try discriminate.
  intros [= <-].
  pose proof (byte_to_Z_range b0) as H0.
  pose proof (byte_to_Z_range b1) as H1.
  assert (Hs : Z.shiftl (byte_to_Z b1) 8 = byte_to_Z b1 * 256)
    by (rewrite Z.shiftl_mul_pow2; lia).
  rewrite Hs. split.
  - apply Z.lor_nonneg. lia.
  - destruct (Z.eq_dec (Z.lor (byte_to_Z b0) (byte_to_Z b1 * 256)) 0)
      as [->|Hne]; [lia|].
    assert (0 ≤ Z.lor (byte_to_Z b0) (byte_to_Z b1 * 256))
      by (apply Z.lor_nonneg; lia).
    apply (Z.log2_lt_pow2 _ 16); [lia|].
    rewrite Z.log2_lor by lia.
    apply Z.max_lub_lt.
    + destruct (Z.eq_dec (byte_to_Z b0) 0) as [->|]; [done|].
      apply Z.log2_lt_pow2; lia.
    + destruct (Z.eq_dec (byte_to_Z b1 * 256) 0) as [->|]; [done|].
      apply Z.log2_lt_pow2; lia.
Qed.

Lemma nkeys_range node n : nkeys node = Ok n → 0 ≤ n < 65536.
Proof.
  unfold nkeys. destruct (slice_range node 2 4); cbn; try discriminate.
  apply Uint16_range.
Qed.

Lemma u16_range z : 0 ≤ u16 z < 65536.
Proof. unfold u16. apply Z.mod_pos_bound. lia. Qed.

Lemma u16_small z : 0 ≤ z < 65536 → u16 z = z.
Proof. unfold u16. apply Z.mod_small. Qed.

(** A range copy of at least one entry into slots [0 ..] starts by
    appending at slot 0. *)
Lemma nodeAppendRange_slot0 new old srcOld n :
  0 < n → nodeAppendRange new old 0 srcOld n = Panic.
Proof.
  intros Hn. unfold nodeAppendRange.
  destruct (Z.to_nat n) as [|rounds] eqn:Hr; [lia|]. cbn [nodeAppendRange_from].
  change (u16 (0 + 0)) with 0.
  repeat first
    [ apply nodeAppendKV_slot0
    | apply bind_always_panics; [ solve [ auto with finite ] | intros ? ] ].
  rewrite nodeAppendKV_slot0. reflexivity.
Qed.

Lemma split_grow_nonneg fuel old nleft r :
  0 ≤ nleft → split_grow fuel old nleft = Ok r → 0 ≤ r.
Proof.
  revert nleft. induction fuel as [|fuel IH]; intros nleft Hn; cbn; [done|].
  destruct (right_bytes old nleft) as [rb| |]; cbn; try discriminate.
  destruct (bool_decide _).
  - apply IH. apply u16_range.
  - by intros [= <-].
Qed.

(** [nodeSplit2] copies its halves with [nodeAppendRange] from slot 0, and
    one of the halves is not empty: it never returns. *)
Lemma nodeSplit2_fails left right old : fails (nodeSplit2 left right old).
Proof.
  unfold nodeSplit2.
  apply fails_bind; intros n Hn. apply nkeys_range in Hn.
  apply fails_bind; intros _ _.
  apply fails_bind; intros nleft _.
  apply fails_bind; intros _ H1%assert_Ok%bool_decide_eq_true.
  apply fails_bind; intros nleft' Hgrow.
  apply split_grow_nonneg in Hgrow; [|lia].
  apply fails_bind; intros _ H2%assert_Ok%bool_decide_eq_true.
  apply fails_bind; intros t _.
  apply fails_bind; intros left' _.
  apply fails_bind; intros right' _.
  destruct (Z.eq_dec nleft' 0) as [->|Hpos].
  - apply fails_bind; intros left'' _.
    rewrite nodeAppendRange_slot0; [apply fails_Panic|].
    rewrite Z.sub_0_r, u16_small; lia.
  - rewrite (nodeAppendRange_slot0 left' old 0 nleft') by lia.
    apply fails_Panic.
Qed.

(** So [nodeSplit3] only ever returns its argument unsplit. *)
Lemma nodeSplit3_returns_one old n nodes :
  nodeSplit3 old = Ok (n, nodes) → n = 1.
Proof.
  unfold nodeSplit3.
  destruct (nbytes old) as [nb| |]; cbn; try discriminate.
  destruct (bool_decide (nb ≤ BTREE_PAGE_SIZE)).
  - destruct (truncate old BTREE_PAGE_SIZE); cbn; try discriminate.
    by intros [= <- _].
  - intros Hsplit. exfalso. revert Hsplit.
    apply (fails_bind (nodeSplit2 _ _ old)).
    intros p Hp. by destruct (nodeSplit2_fails _ _ _ _ Hp).
Qed.

(** C3.  The claim: a node larger than a page splits into 2 or 3 nodes
    that fit and keep the keys.  The code: the 4549-byte leaf
    [wide_leaf] (keys "a", "b", "c") is larger than a page, and splitting
    it panics, in the first append of [nodeSplit2]'s left half. *)
Theorem nodeSplit3_of_oversized_leaf_panics :
  nbytes wide_leaf = Ok 4549 ∧
  (k0 ← getKey wide_leaf 0; k1 ← getKey wide_leaf 1; k2 ← getKey wide_leaf 2;
   Ok [k0; k1; k2]) = Ok [["a"%byte]; ["b"%byte]; ["c"%byte]] ∧
  nodeSplit3 wide_leaf = Panic.
Proof. repeat split; vm_compute; reflexivity. Qed.

(** ** Insert *)

(** Whatever a bind chain returns is returned by its last step. *)
Lemma bind_returns {A B} (P : B → Prop) (m : result A) (f : A → result B) :
  (∀ a, m = Ok a → ∀ b, f a = Ok b → P b) → ∀ b, m ≫= f = Ok b → P b.
Proof.
  intros Hf b. destruct m as [a| |]; cbn; try discriminate.
  by apply Hf.
Qed.

Ltac returns_step :=
  match goal with
  | |- ∀ b, _ ≫= _ = Ok b → _ => apply bind_returns; intros ? _
  | |- ∀ b, (if ?c then _ else _) = Ok b → _ => destruct c
  | |- ∀ b, match ?x with _ => _ end = Ok b → _ => destruct x
  | |- ∀ b, Ok _ = Ok b → _ => by intros ? [= <-]
  | |- ∀ b, Panic = Ok b → _ => by intros ?
  | |- _ => progress cbv zeta
  end.

Section InsertFacts.

Context {St : Type} `{PageStore St}.

Lemma checkLimit_Some key value err :
  checkLimit key value = Some err ↔
  len key > 999 ∧ len value > 2999
  ∧ err = "length of key or value too large!"%string.
Proof.
  unfold checkLimit, BTREE_MAX_KEY_SIZE, BTREE_MAX_VAL_SIZE.
  destruct (bool_decide (len key >= 1000)) eqn:Hk;
    destruct (bool_decide (len value >= 3000)) eqn:Hv; cbn;
    try apply bool_decide_eq_true in Hk; try apply bool_decide_eq_false in Hk;
    try apply bool_decide_eq_true in Hv; try apply bool_decide_eq_false in Hv;
    split; try (intros [= <-]); try (intros (? & ? & ->)); try done;
    repeat split; lia.
Qed.

(** Past the size check, [Insert] has no [return] but [return nil]. *)
Lemma Insert_returns_nil depth (tree : BTree St) key value :
  checkLimit key value = None →
  ∀ r, Insert depth tree key value = Ok r → r.2 = None.
Proof.
  intros Hlimit. unfold Insert. rewrite Hlimit.
  repeat returns_step.
Qed.

Lemma nodeAppendRange_none new old dstNew srcOld n :
  n ≤ 0 → nodeAppendRange new old dstNew srcOld n = Ok new.
Proof.
  intros Hn. unfold nodeAppendRange.
  by replace (Z.to_nat n) with 0%nat by lia.
Qed.

Lemma leafUpdate_fails new old idx key val :
  0 ≤ idx → fails (leafUpdate new old idx key val).
Proof.
  intros Hidx. unfold leafUpdate.
  apply fails_bind; intros n _. apply fails_bind; intros new' _.
  destruct (Z.eq_dec idx 0) as [->|Hpos].
  - rewrite nodeAppendRange_none by lia. cbn.
    rewrite nodeAppendKV_slot0. apply fails_Panic.
  - rewrite (nodeAppendRange_slot0 new' old 0 idx) by lia. apply fails_Panic.
Qed.

Lemma leafInsert_fails new old idx key val :
  0 ≤ idx → fails (leafInsert new old idx key val).
Proof.
  intros Hidx. unfold leafInsert.
  apply fails_bind; intros n _. apply fails_bind; intros new' _.
  destruct (Z.eq_dec idx 0) as [->|Hpos].
  - rewrite nodeAppendRange_none by lia. cbn.
    rewrite nodeAppendKV_slot0. apply fails_Panic.
  - rewrite (nodeAppendRange_slot0 new' old 0 idx) by lia. apply fails_Panic.
Qed.

Lemma nodeLookupLE_nonneg node key idx :
  nodeLookupLE node key = Ok idx → 0 ≤ idx.
Proof.
  unfold nodeLookupLE. destruct (nkeys node) as [n| |]; cbn; try done.
  assert (Hfrom : ∀ rounds i, 0 ≤ i →
            nodeLookupLE_from rounds i node key = Ok idx → 0 ≤ idx).
  { induction rounds as [|rounds IH]; intros i Hi; cbn.
    - intros [= <-]. apply u16_range.
    - destruct (getKey node i); cbn; try done.
      repeat case_bool_decide.
      + by intros [= <-].
      + intros [= <-]. apply u16_range.
      + apply IH. lia. }
  by apply Hfrom.
Qed.

(** Every path of [treeInsert] copies entries into a fresh node starting
    at slot 0: it never returns. *)
Lemma treeInsert_fails depth (tree : BTree St) node key val :
  fails (treeInsert depth tree node key val).
Proof.
  revert tree node. induction depth as [|depth IH]; intros tree node; cbn.
  { intros a. discriminate. }
  apply fails_bind; intros idx Hidx%nodeLookupLE_nonneg.
  apply fails_bind; intros t _.
  repeat case_bool_decide.
  - apply fails_bind; intros k _. destruct (bytes_Equal key k).
    + apply fails_bind; intros new Hnew.
      by destruct (leafUpdate_fails _ _ _ _ _ Hidx _ Hnew).
    + apply fails_bind; intros new Hnew.
      by destruct (leafInsert_fails _ _ _ _ _ (proj1 (u16_range _)) _ Hnew).
  - apply fails_bind; intros kptr _.
    apply fails_bind; intros [tree' child] _.
    apply fails_bind; intros [tree'' knode] Hrec.
    by destruct (IH _ _ _ Hrec).
  - apply fails_Panic.
Qed.

(** So no call of [Insert] returns [nil]: it returns the size-limit
    error or it does not return. *)
Lemma Insert_never_returns_nil depth (tree : BTree St) key value tree' :
  Insert depth tree key value ≠ Ok (tree', None).
Proof.
  unfold Insert. destruct (checkLimit key value); [done|].
  case_bool_decide.
  - cbv zeta. apply fails_bind; intros root _.
    rewrite nodeAppendKV_slot0. apply fails_Panic.
  - apply fails_bind; intros [tree1 page] _.
    apply fails_bind; intros [tree2 node] Hins.
    by destruct (treeInsert_fails _ _ _ _ _ _ Hins).
Qed.

(** C4.  [Insert] returns the size-limit error, and the same tree (same
    root, same store, so no page allocated), exactly when the key is
    longer than 999 bytes and the value is longer than 2999 bytes; when
    at most one of them is too long, no run of [Insert] returns an
    error. *)
Theorem Insert_size_limit depth (tree : BTree St) key value :
  (len key > 999 ∧ len value > 2999 →
   Insert depth tree key value
   = Ok (tree, Some "length of key or value too large!"%string))
  ∧ (¬ (len key > 999 ∧ len value > 2999) →
     ∀ tree' err, Insert depth tree key value ≠ Ok (tree', Some err)).
Proof.
  split.
  - intros [Hk Hv].
    assert (Hlimit : checkLimit key value
                     = Some "length of key or value too large!"%string)
      by (by apply checkLimit_Some).
    unfold Insert. by rewrite Hlimit.
  - intros Hsmall tree' err Hret.
    destruct (checkLimit key value) as [e|] eqn:Hlimit.
    + apply checkLimit_Some in Hlimit. tauto.
    + by apply Insert_returns_nil in Hret.
Qed.

(** C7.  The claim: on an empty tree, [Insert] of a key and value within
    the limits builds a two-slot leaf, allocates it and makes it the
    root.  The code: the call panics, at the first [nodeAppendKV(root, 0,
    ...)], before any page is allocated. *)
Theorem Insert_into_empty_tree_panics depth (s : St) key value :
  len key ≤ 999 → len value ≤ 2999 →
  Insert depth (mkBTree 0 s) key value = Panic.
Proof.
  intros Hk Hv. unfold Insert.
  assert (Hlimit : checkLimit key value = None).
  { destruct (checkLimit key value) eqn:E; [|done].
    apply checkLimit_Some in E. lia. }
  rewrite Hlimit. cbn [root]. rewrite bool_decide_eq_true_2 by done.
  cbv zeta. apply bind_always_panics; [auto with finite|].
  intros root. by rewrite nodeAppendKV_slot0.
Qed.

End InsertFacts.

(** Witness for C4: a 1000-byte key with a 3000-byte value is rejected and
    the tree is returned as it was; with a one-byte value it is not. *)
Lemma Insert_size_limit_witness :
  Insert 1 tree0 (replicate 1000 "k"%byte) (replicate 3000 "v"%byte)
  = Ok (tree0, Some "length of key or value too large!"%string)
  ∧ ∀ tree' err,
      Insert 1 tree0 (replicate 1000 "k"%byte) ["v"%byte]
      ≠ Ok (tree', Some err).
Proof.
  split.
  - apply (Insert_size_limit 1 tree0); by vm_compute.
  - apply (Insert_size_limit 1 tree0). intros [_ Hv]. by vm_compute in Hv.
Defined.

(** Witness for C7: "a" with "b" into an empty tree over an empty store. *)
Lemma Insert_into_empty_tree_panics_witness :
  Insert 1 (mkBTree 0 (mkMemStore ∅ 1 [])) ["a"%byte] ["b"%byte] = Panic.
Proof.
  apply Insert_into_empty_tree_panics; by vm_compute.
Defined.

(** ** Merge eligibility and recursive delete *)

(** C5.  The claim: with no left sibling, merge right exactly when
    [sibling.nbytes() + updated.nbytes() - HEADER <= PAGE_SIZE].  The
    code: under [parent], child 0 updated to the 500-byte [small_leaf]
    has the 4000-byte [big_leaf] (page 6) as right sibling; the sizes add
    up to 4496, over a page, and [shouldMerge] still answers +1, because
    it adds the sibling's type tag 2 instead of its size. *)
Theorem shouldMerge_right_adds_type_tag :
  nbytes small_leaf = Ok 500 ∧
  nbytes big_leaf = Ok 4000 ∧
  btype big_leaf = Ok 2 ∧
  merge_fits big_leaf small_leaf = Ok false ∧
  shouldMerge tree0 parent 0 small_leaf
  = Ok (mkBTree 4 (mkMemStore (pages store0) 7 [Get 6]), (1, big_leaf)).
Proof. repeat split; vm_compute; reflexivity. Qed.

Lemma parent_kid1 : getPtr parent 1 = Ok 6.
Proof. vm_compute. reflexivity. Qed.

Lemma tree0_get_1 :
  tree_get tree0 (u64 1)
  = Ok (mkBTree 4 (mkMemStore (pages store0) 7 [Get 1]), other_leaf).
Proof. vm_compute. reflexivity. Qed.

(** C6.  The claim: the page handed to the recursive delete is the one
    the pointer in slot [idx] names.  The code: under [parent], slot 1
    names page 6 (first key "m"), yet [nodeDelete] at [idx = 1] reads
    page 1 (first key "z") and hands that to [treeDelete], whatever
    [treeDelete], [nodeMerge] and [nodeReplace2Kid] are; page 6 is the one
    it goes on to free. *)
Theorem nodeDelete_reads_page_numbered_idx :
  ∀ treeDelete nodeMerge nodeReplace2Kid key,
    getPtr parent 1 = Ok 6 ∧
    pages store0 !! 6 = Some big_leaf ∧
    getKey big_leaf 0 = Ok ["m"%byte] ∧
    pages store0 !! 1 = Some other_leaf ∧
    getKey other_leaf 0 = Ok ["z"%byte] ∧
    nodeDelete treeDelete nodeMerge nodeReplace2Kid tree0 parent 1 key
    = '(tree, updated) ←
        treeDelete (mkBTree 4 (mkMemStore (pages store0) 7 [Get 1]))
                   other_leaf key;
      nodeDelete_splice nodeMerge nodeReplace2Kid tree parent 1 6 updated.
Proof.
  intros td nm nr key.
  do 5 (split; [vm_compute; reflexivity|]).
  unfold nodeDelete. rewrite parent_kid1. cbn [mbind result_bind].
  rewrite tree0_get_1. reflexivity.
Qed.

(** ** Child pointers *)

(** *** Bytes and 16-bit fields *)

Lemma byte_of_Z_to_Z z : byte_to_Z (byte_of_Z z) = z mod 256.
Proof.
  unfold byte_to_Z, byte_of_Z.
  pose proof (Z.mod_pos_bound z 256 ltac:(lia)) as Hr.
  destruct (Byte.of_N (Z.to_N (z mod 256))) as [b|] eqn:Hb; cbn.
  - apply Byte.to_of_N in Hb. rewrite Hb. lia.
  - apply Byte.of_N_None_iff in Hb. lia.
Qed.

Lemma le16_join v :
  0 ≤ v < 65536 →
  Z.lor (byte_to_Z (byte_of_Z v))
        (Z.shiftl (byte_to_Z (byte_of_Z (Z.shiftr v 8))) 8) = v.
Proof.
  intros Hv. rewrite !byte_of_Z_to_Z.
  assert (Hhi : Z.shiftr v 8 mod 256 = Z.shiftr v 8).
  { rewrite Z.shiftr_div_pow2 by lia. apply Z.mod_small.
    change (2 ^ 8) with 256. split; [apply Z.div_pos; lia|].
    apply Z.div_lt_upper_bound; lia. }
  rewrite Hhi. change 256 with (2 ^ 8).
  apply Z.bits_inj'; intros n Hn.
  rewrite Z.lor_spec, Z.shiftl_spec by lia.
  destruct (Z.lt_ge_cases n 8) as [Hlt|Hge].
  - rewrite Z.mod_pow2_bits_low by lia.
    rewrite (Z.testbit_neg_r _ (n - 8)) by lia. apply orb_false_r.
  - rewrite Z.mod_pow2_bits_high by lia.
    rewrite Z.shiftr_spec by lia. cbn. f_equal. lia.
Qed.

Lemma backing_with_backing node arr : backing (with_backing node arr) = arr.
Proof. unfold backing, with_backing. cbn. apply take_drop. Qed.

Lemma backing_write_byte node i b :
  backing (write_byte node i b) = <[Z.to_nat i := b]> (backing node).
Proof. apply backing_with_backing. Qed.

Lemma bcap_write_byte node i b : bcap (write_byte node i b) = bcap node.
Proof. unfold bcap. by rewrite backing_write_byte, length_insert. Qed.

Lemma blen_write_byte node i b : blen (write_byte node i b) = blen node.
Proof.
  unfold blen, write_byte, with_backing. cbn.
  rewrite length_take, length_insert. unfold backing. rewrite length_app. lia.
Qed.

Lemma read_byte_write_byte_eq node i b :
  0 ≤ i < bcap node → read_byte (write_byte node i b) i = Ok b.
Proof.
  intros Hi. unfold read_byte. rewrite backing_write_byte.
  rewrite list_lookup_insert_eq; [done|]. unfold bcap in Hi. lia.
Qed.

Lemma read_byte_write_byte_ne node i j b :
  0 ≤ i → 0 ≤ j → i ≠ j →
  read_byte (write_byte node i b) j = read_byte node j.
Proof.
  intros Hi Hj Hne. unfold read_byte. rewrite backing_write_byte.
  rewrite list_lookup_insert_ne; [done|]. lia.
Qed.

Lemma slice_from_Ok node pos w :
  slice_from node pos = Ok w →
  w = mkWindow pos (blen node - pos) ∧ 0 ≤ pos ≤ blen node.
Proof.
  unfold slice_from. case_bool_decide; [|done]. by intros [= <-].
Qed.

Lemma blen_le_bcap node : blen node ≤ bcap node.
Proof. unfold blen, bcap, backing. rewrite length_app. lia. Qed.

Lemma PutUint16_Ok node w v node' :
  PutUint16 node w v = Ok node' →
  2 ≤ w_len w
  ∧ node' = write_byte (write_byte node (w_off w) (byte_of_Z v))
                       (w_off w + 1) (byte_of_Z (Z.shiftr v 8)).
Proof.
  unfold PutUint16, assert. case_bool_decide; cbn; [|done]. by intros [= <-].
Qed.

(** What [PutUint16] wrote, [Uint16] reads. *)
Lemma Uint16_PutUint16 node w v node' :
  0 ≤ w_off w → w_off w + w_len w ≤ bcap node → 0 ≤ v < 65536 →
  PutUint16 node w v = Ok node' → Uint16 node' w = Ok v.
Proof.
  intros Hoff Hcap Hv (Hlen & ->)%PutUint16_Ok.
  unfold Uint16, assert. rewrite bool_decide_eq_true_2 by done. cbn.
  rewrite (read_byte_write_byte_ne _ (w_off w + 1) (w_off w)) by lia.
  rewrite (read_byte_write_byte_eq node) by lia. cbn.
  rewrite read_byte_write_byte_eq by (rewrite bcap_write_byte; lia). cbn.
  by rewrite le16_join.
Qed.

(** A 16-bit store at offset 4 or later leaves the header alone. *)
Lemma nkeys_PutUint16 node w v node' :
  4 ≤ w_off w → PutUint16 node w v = Ok node' → nkeys node' = nkeys node.
Proof.
  intros Hoff (Hlen & ->)%PutUint16_Ok.
  unfold nkeys, slice_range. rewrite !bcap_write_byte.
  case_bool_decide; [|done]. cbn.
  unfold Uint16. cbn.
  by rewrite !read_byte_write_byte_ne by lia.
Qed.

Lemma ptr_pos_ge_4 idx : 4 ≤ u16 (4 + 8 * idx).
Proof.
  unfold u16.
  pose proof (Z.mod_pos_bound (4 + 8 * idx) 65536 ltac:(lia)).
  pose proof (Z.div_mod (4 + 8 * idx) 65536 ltac:(lia)). lia.
Qed.

(** What [setPtr] stored, [getPtr] returns: a 16-bit value. *)
Lemma getPtr_setPtr node idx v node' :
  0 ≤ v < 65536 → setPtr node idx v = Ok node' → getPtr node' idx = Ok v.
Proof.
  intros Hv. unfold setPtr, getPtr.
  destruct (nkeys node) as [n| |] eqn:Hn; cbn; try done.
  destruct (assert (bool_decide (idx < n))) as [[]| |] eqn:Ha; cbn; try done.
  destruct (slice_from node (u16 (4 + 8 * idx))) as [w| |] eqn:Hw;
    cbn; try done.
  intros Hput. apply slice_from_Ok in Hw as [-> Hpos].
  pose proof (ptr_pos_ge_4 idx). pose proof (blen_le_bcap node).
  assert (Hk : nkeys node' = nkeys node)
    by (eapply nkeys_PutUint16; [|exact Hput]; cbn; lia).
  rewrite Hk, Hn. cbn.
  rewrite Ha. cbn.
  destruct (PutUint16_Ok _ _ _ _ Hput) as [Hlen Hnode'].
  assert (Hblen : blen node' = blen node)
    by (rewrite Hnode', !blen_write_byte; done).
  unfold slice_from. rewrite Hblen, bool_decide_eq_true_2 by done.
  cbn. cbn in Hlen.
  eapply Uint16_PutUint16; [..|exact Hput]; cbn; lia.
Qed.

(** C9.  The claim: a child-pointer slot returns the 64-bit page ID that
    was stored.  The code: [setPtr] takes a [uint16], so a page ID [p] is
    narrowed with [uint16(p)] on its way in (as [nodeReplaceKidN] does
    with [tree.new]'s result); whenever that store succeeds, [getPtr]
    returns [p] modulo 2^16. *)
Theorem getPtr_returns_low_16_bits node idx p node' :
  setPtr node idx (u16 p) = Ok node' → getPtr node' idx = Ok (p mod 65536).
Proof.
  intros Hset. unfold u16 in Hset.
  apply (getPtr_setPtr node idx (p mod 65536)); [|exact Hset].
  apply Z.mod_pos_bound. lia.
Qed.

(** Witness for C9: page ID 65541 stored in slot 1 of [parent] reads back
    as 5. *)
Lemma getPtr_returns_low_16_bits_witness :
  ∃ node', setPtr parent 1 (u16 65541) = Ok node'
           ∧ getPtr node' 1 = Ok (65541 mod 65536)
           ∧ 65541 mod 65536 = 5.
Proof.
  eexists. split; [vm_compute; reflexivity|]. split; [|reflexivity].
  apply (getPtr_returns_low_16_bits parent 1 65541).
  vm_compute. reflexivity.
Defined.

(** The same through the allocator: a store about to allocate page 65541
    hands out that ID; narrowed and stored, two of the slot's eight bytes
    are written and 5 is read back. *)
Example allocated_page_id_is_narrowed :
  ('(tree, id) ← tree_new (mkBTree 4 (mkMemStore ∅ 65541 [])) other_leaf;
   node ← setPtr parent 1 (u16 id);
   p ← getPtr node 1;
   Ok (id, p, read node (mkWindow 12 8)))
  = Ok (65541, 5, [x05; x00; x00; x00; x00; x00; x00; x00]).
Proof. vm_compute. reflexivity. Qed.

(** ** The commit protocol *)

Section CommitFacts.

Import io.

Context {St Sys : Type}.
Variable writePages : KV St → Sys → KV St * Sys * option error.
Variable Fsync : Z → Sys → Sys * option error.
Variable updateRoot : KV St → Sys → KV St * Sys * option error.
Variable tree_Delete :
  BTree St → list byte → result (BTree St * (bool * option error)).

#[local] Abbreviation updateFile := (updateFile writePages Fsync updateRoot).
#[local] Abbreviation KV_Delete :=
  (KV_Delete writePages Fsync updateRoot tree_Delete).

(** Every run of [updateFile] extends the log by one of the four call
    sequences. *)
Lemma updateFile_calls (w : world St Sys) :
  ∃ evs, log (updateFile w).1 = log w ++ evs
         ∧ commit_calls evs (updateFile w).2.
Proof.
  unfold io.updateFile, call_writePages, call_Fsync, call_updateRoot,
    commit_calls.
  destruct (writePages (db w) (sys w)) as [[d1 s1] [e1|]]; cbn.
  { eexists. split; [done|]. left. eauto. }
  destruct (Fsync (fd d1) s1) as [s2 [e2|]]; cbn.
  { eexists. split; [by rewrite <- app_assoc|]. right. left. eauto. }
  destruct (updateRoot d1 s2) as [[d3 s3] [e3|]]; cbn.
  { eexists. split; [by rewrite <- !app_assoc|]. right. right. left. eauto. }
  destruct (Fsync (fd d3) s3) as [s4 e4]; cbn.
  eexists. split; [by rewrite <- !app_assoc|]. right. right. right. eauto.
Qed.


Lemma set_tree_same (w : world St Sys) : set_tree w (tree (db w)) = w.
Proof. by destruct w as [[? ? ?] ? ?]. Qed.

(** C10.  [KV.Delete] read as its doc comment says ([deleted] is the
    [bool] of [Delete], whose [error] is dropped).  Whenever the tree's
    [Delete] returns, found or not and with or without an error of its
    own, [KV.Delete] returns [deleted] next to the error of [updateFile],
    and what it leaves behind is what the commit protocol makes of the
    database that holds the tree after [Delete]: [writePages] is applied
    to that database and the system state of the call; if it fails, that
    is all and its error is returned; otherwise [Fsync] is applied to
    what [writePages] left, then [updateRoot], then [Fsync] again, each
    to the state the previous call left, and the first error, or else the
    result of the last [Fsync], is returned.  When the key was absent and
    the tree is unchanged, that is [updateFile] on the very state
    [KV.Delete] was called in. *)
Theorem KV_Delete_commits_whatever_was_found
    (w : world St Sys) key t deleted derr :
  tree_Delete (tree (db w)) key = Ok (t, (deleted, derr)) →
  let d0 := mkKV (Path (db w)) (fd (db w)) t in
  (∃ w' err,
     KV_Delete w key = Ok (w', (deleted, err))
     ∧ (w', err) = updateFile (set_tree w t)
     ∧ match writePages d0 (sys w) with
       | (d1, s1, Some e) =>
           w' = mkWorld d1 s1 (log w ++ [(CallWritePages, Some e)])
           ∧ err = Some e
       | (d1, s1, None) =>
           match Fsync (fd d1) s1 with
           | (s2, Some e) =>
               w' = mkWorld d1 s2
                      (log w ++ [(CallWritePages, None);
                                 (CallFsync (fd d1), Some e)])
               ∧ err = Some e
           | (s2, None) =>
               match updateRoot d1 s2 with
               | (d3, s3, Some e) =>
                   w' = mkWorld d3 s3
                          (log w ++ [(CallWritePages, None);
                                     (CallFsync (fd d1), None);
                                     (CallUpdateRoot, Some e)])
                   ∧ err = Some e
               | (d3, s3, None) =>
                   w' = mkWorld d3 (Fsync (fd d3) s3).1
                          (log w ++ [(CallWritePages, None);
                                     (CallFsync (fd d1), None);
                                     (CallUpdateRoot, None);
                                     (CallFsync (fd d3),
                                      (Fsync (fd d3) s3).2)])
                   ∧ err = (Fsync (fd d3) s3).2
               end
           end
       end)
  ∧ (t = tree (db w) → deleted = false →
     KV_Delete w key = Ok ((updateFile w).1, (false, (updateFile w).2))).
Proof.
  intros Hdel d0.
  assert (Hrun : KV_Delete w key
                 = Ok ((updateFile (set_tree w t)).1,
                       (deleted, (updateFile (set_tree w t)).2))).
  { unfold io.KV_Delete. rewrite Hdel. cbn.
    by destruct (updateFile (set_tree w t)). }
  split.
  - exists (updateFile (set_tree w t)).1, (updateFile (set_tree w t)).2.
    split; [done|]. split; [by destruct (updateFile (set_tree w t))|].
    unfold io.updateFile, call_writePages, call_Fsync, call_updateRoot,
      set_tree.
    cbn [db sys log]. fold d0.
    destruct (writePages d0 (sys w)) as [[d1 s1] [e1|]]; cbn; [done|].
    destruct (Fsync (fd d1) s1) as [s2 [e2|]]; cbn;
      [by rewrite <- app_assoc|].
    destruct (updateRoot d1 s2) as [[d3 s3] [e3|]]; cbn;
      [by rewrite <- !app_assoc|].
    destruct (Fsync (fd d3) s3) as [s4 e4]; cbn.
    by rewrite <- !app_assoc.
  - intros -> ->. by rewrite Hrun, set_tree_same.
Qed.

End CommitFacts.


(** Witness for C10: the key "q" is absent and the tree is left alone;
    the page writes, the first fsync and the root update succeed and
    leave their marks (10, 1 and 100) on the system state, and the second
    fsync reports an I/O error.  [KV.Delete] makes all four calls and
    returns [false] with that error. *)
Lemma KV_Delete_commits_whatever_was_found_witness :
  io.KV_Delete writePages_mark Fsync_mark updateRoot_mark Delete_absent
               world0 ["q"%byte]
  = Ok (io.mkWorld (io.db world0) 111
          [(io.CallWritePages, None); (io.CallFsync 3, None);
           (io.CallUpdateRoot, None);
           (io.CallFsync 3, Some "input/output error"%string)],
        (false, Some "input/output error"%string)).
Proof.
  destruct (proj1 (KV_Delete_commits_whatever_was_found
                     writePages_mark Fsync_mark updateRoot_mark Delete_absent
                     world0 ["q"%byte] tree0 false None eq_refl))
    as (w' & err & Hrun & _ & Hout).
  vm_compute in Hout. destruct Hout as [-> ->]. rewrite Hrun.
  vm_compute. reflexivity.
Defined.

(** ** Fields next to a 16-bit store *)

Lemma Uint16_write_byte node i b w :
  0 ≤ i → 0 ≤ w_off w → i ≠ w_off w → i ≠ w_off w + 1 →
  Uint16 (write_byte node i b) w = Uint16 node w.
Proof.
  intros Hi Hw H0 H1. unfold Uint16.
  by rewrite !read_byte_write_byte_ne by lia.
Qed.

(** A 16-bit store leaves every 16-bit field that does not overlap it. *)
Lemma Uint16_PutUint16_apart node w v node' w' :
  0 ≤ w_off w → 0 ≤ w_off w' →
  w_off w + 2 ≤ w_off w' ∨ w_off w' + 2 ≤ w_off w →
  PutUint16 node w v = Ok node' → Uint16 node' w' = Uint16 node w'.
Proof.
  intros Hw Hw' Hapart (_ & ->)%PutUint16_Ok.
  rewrite !Uint16_write_byte by lia. done.
Qed.

Lemma bcap_PutUint16 node w v node' :
  PutUint16 node w v = Ok node' → bcap node' = bcap node.
Proof. intros (_ & ->)%PutUint16_Ok. by rewrite !bcap_write_byte. Qed.

Lemma blen_PutUint16 node w v node' :
  PutUint16 node w v = Ok node' → blen node' = blen node.
Proof. intros (_ & ->)%PutUint16_Ok. by rewrite !blen_write_byte. Qed.

Lemma slice_range_Ok node lo hi w :
  slice_range node lo hi = Ok w →
  w = mkWindow lo (hi - lo) ∧ 0 ≤ lo ≤ hi ∧ hi ≤ bcap node.
Proof.
  unfold slice_range. case_bool_decide; [|done]. by intros [= <-].
Qed.

Lemma drop_backing_write_byte node i b n :
  0 ≤ i → (Z.to_nat i < n)%nat →
  drop n (backing (write_byte node i b)) = drop n (backing node).
Proof.
  intros Hi Hn. rewrite backing_write_byte. by apply drop_insert_lt.
Qed.

(** X1.  What [setHeader] stored, [btype] and [nkeys] return; the node keeps
    its length and capacity, and every byte from offset 4 on. *)
Theorem setHeader_round_trip node t n node' :
  0 ≤ t < 65536 → 0 ≤ n < 65536 →
  setHeader node t n = Ok node' →
  btype node' = Ok t ∧ nkeys node' = Ok n
  ∧ blen node' = blen node ∧ bcap node' = bcap node
  ∧ drop 4 (backing node') = drop 4 (backing node).
Proof.
  intros Ht Hn. unfold setHeader.
  destruct (slice_range node 0 2) as [w| |] eqn:Hw; cbn; try done.
  apply slice_range_Ok in Hw as (-> & _ & Hcap2).
  destruct (PutUint16 node _ t) as [node1| |] eqn:Hput1; cbn; try done.
  destruct (slice_range node1 2 4) as [w| |] eqn:Hw; cbn; try done.
  apply slice_range_Ok in Hw as (-> & _ & Hcap4).
  intros Hput2.
  pose proof (bcap_PutUint16 _ _ _ _ Hput1) as Hc1.
  pose proof (bcap_PutUint16 _ _ _ _ Hput2) as Hc2.
  pose proof (blen_PutUint16 _ _ _ _ Hput1) as Hl1.
  pose proof (blen_PutUint16 _ _ _ _ Hput2) as Hl2.
  repeat split; try congruence.
  - unfold btype, slice_range.
    rewrite bool_decide_eq_true_2 by lia. cbn.
    rewrite (Uint16_PutUint16_apart node1 (mkWindow 2 (4 - 2)) n node'
               (mkWindow 0 (2 - 0))); [|cbn; lia..|exact Hput2].
    apply (Uint16_PutUint16 node _ t); cbn; try lia. done.
  - unfold nkeys, slice_range.
    rewrite bool_decide_eq_true_2 by lia. cbn.
    apply (Uint16_PutUint16 node1 _ n); cbn; try lia. done.
  - apply PutUint16_Ok in Hput1 as (_ & ->).
    apply PutUint16_Ok in Hput2 as (_ & ->).
    rewrite !drop_backing_write_byte by (cbn; lia). done.
Qed.

Lemma bind_Ok {A B} (m : result A) (f : A → result B) b :
  m ≫= f = Ok b → ∃ a, m = Ok a ∧ f a = Ok b.
Proof. destruct m as [a| |]; cbn; try done. eauto. Qed.

Lemma ptr_pos_form idx : ∃ k, 0 ≤ k ∧ u16 (4 + 8 * idx) = 4 + 8 * k.
Proof.
  unfold u16.
  pose proof (Z.mod_pos_bound (4 + 8 * idx) 65536 ltac:(lia)).
  pose proof (Z.div_mod (4 + 8 * idx) 65536 ltac:(lia)).
  exists (idx - 8192 * ((4 + 8 * idx) `div` 65536)). lia.
Qed.

Lemma setPtr_Ok node idx v node' :
  setPtr node idx v = Ok node' →
  ∃ n, nkeys node = Ok n ∧ idx < n
       ∧ u16 (4 + 8 * idx) + 2 ≤ blen node
       ∧ PutUint16 node (mkWindow (u16 (4 + 8 * idx))
                                  (blen node - u16 (4 + 8 * idx))) v
         = Ok node'.
Proof.
  unfold setPtr.
  intros (n & Hn & H1)%bind_Ok. exists n. split; [done|].
  apply bind_Ok in H1 as ([] & Ha%assert_Ok%bool_decide_eq_true & H1).
  apply bind_Ok in H1 as (w & (-> & Hw)%slice_from_Ok & Hput).
  pose proof (PutUint16_Ok _ _ _ _ Hput) as [Hlen _]. cbn in Hlen.
  repeat split; [done|lia|done].
Qed.

Lemma btype_PutUint16 node w v node' :
  2 ≤ w_off w → PutUint16 node w v = Ok node' → btype node' = btype node.
Proof.
  intros Hoff Hput. unfold btype, slice_range.
  rewrite (bcap_PutUint16 _ _ _ _ Hput).
  case_bool_decide; [|done]. cbn.
  apply (Uint16_PutUint16_apart node w v); cbn; try lia. done.
Qed.

Lemma getPtr_PutUint16_apart node w v node' j :
  4 ≤ w_off w →
  w_off w + 2 ≤ u16 (4 + 8 * j) ∨ u16 (4 + 8 * j) + 2 ≤ w_off w →
  PutUint16 node w v = Ok node' → getPtr node' j = getPtr node j.
Proof.
  intros Hoff Hapart Hput. unfold getPtr.
  rewrite (nkeys_PutUint16 _ _ _ _ Hoff Hput).
  destruct (nkeys node) as [n| |]; cbn; try done.
  destruct (assert _) as [[]| |]; cbn; try done.
  unfold slice_from. rewrite (blen_PutUint16 _ _ _ _ Hput).
  case_bool_decide; [|done]. cbn.
  apply (Uint16_PutUint16_apart node w v); cbn; try lia. done.
Qed.

(** X2.  [setPtr] writes its own slot only: the header, the node's length
    and capacity and every other pointer slot stay as they were. *)
Theorem setPtr_frame node idx v node' :
  setPtr node idx v = Ok node' →
  btype node' = btype node ∧ nkeys node' = nkeys node
  ∧ blen node' = blen node ∧ bcap node' = bcap node
  ∧ ∀ j, 0 ≤ idx < 8192 → 0 ≤ j < 8192 → j ≠ idx →
         getPtr node' j = getPtr node j.
Proof.
  intros (n & Hn & Hidx & Hlen & Hput)%setPtr_Ok.
  pose proof (ptr_pos_ge_4 idx) as Hpos.
  split; [eapply btype_PutUint16; [|exact Hput]; cbn; lia|].
  split; [eapply nkeys_PutUint16; [|exact Hput]; cbn; lia|].
  split; [apply (blen_PutUint16 _ _ _ _ Hput)|].
  split; [apply (bcap_PutUint16 _ _ _ _ Hput)|].
  intros j Hi Hj Hne.
  eapply getPtr_PutUint16_apart; [| |exact Hput]; cbn; [lia|].
  rewrite !u16_small by lia. lia.
Qed.

Lemma setOffset_Ok node idx off node' :
  setOffset node idx off = Ok node' →
  ∃ n, nkeys node = Ok n ∧ 1 ≤ idx ≤ n
       ∧ u16 (4 + 8 * n + 2 * (idx - 1)) + 2 ≤ blen node
       ∧ PutUint16 node (mkWindow (u16 (4 + 8 * n + 2 * (idx - 1)))
                          (blen node - u16 (4 + 8 * n + 2 * (idx - 1)))) off
         = Ok node'.
Proof.
  unfold setOffset, offsetPos.
  intros (pos & Hpos & H1)%bind_Ok.
  apply bind_Ok in Hpos as (n & Hn & Hpos). exists n. split; [done|].
  apply bind_Ok in Hpos as ([] & Ha%assert_Ok%andb_prop & [= <-]).
  destruct Ha as [Ha1%bool_decide_eq_true Ha2%bool_decide_eq_true].
  apply bind_Ok in H1 as (w & (-> & Hw)%slice_from_Ok & Hput).
  pose proof (PutUint16_Ok _ _ _ _ Hput) as [Hlen _]. cbn in Hlen.
  repeat split; [lia..|done].
Qed.

Lemma getOffset_PutUint16_apart node w v node' n j :
  4 ≤ w_off w → nkeys node = Ok n → j ≠ 0 →
  w_off w + 2 ≤ u16 (4 + 8 * n + 2 * (j - 1))
  ∨ u16 (4 + 8 * n + 2 * (j - 1)) + 2 ≤ w_off w →
  PutUint16 node w v = Ok node' → getOffset node' j = getOffset node j.
Proof.
  intros Hoff Hn Hj Hapart Hput. unfold getOffset.
  rewrite bool_decide_eq_false_2 by done.
  rewrite (nkeys_PutUint16 _ _ _ _ Hoff Hput), Hn. cbn.
  unfold slice_from. rewrite (blen_PutUint16 _ _ _ _ Hput).
  case_bool_decide; [|done]. cbn.
  apply (Uint16_PutUint16_apart node w v); cbn; try lia. done.
Qed.

(** X3.  On a node whose offsets array lies below 2^16, what [setOffset]
    stored [getOffset] returns, and the header, the pointer slots and the
    other offsets stay as they were. *)
Theorem setOffset_round_trip node idx off node' n :
  nkeys node = Ok n → 4 + 10 * n ≤ 65536 → 0 ≤ off < 65536 →
  setOffset node idx off = Ok node' →
  getOffset node' idx = Ok off
  ∧ btype node' = btype node ∧ nkeys node' = Ok n
  ∧ (∀ j, 0 ≤ j < n → getPtr node' j = getPtr node j)
  ∧ (∀ j, 0 ≤ j ≤ n → j ≠ idx → getOffset node' j = getOffset node j).
Proof.
  intros Hn Hsmall Hoff (n' & Hn' & Hidx & Hlen & Hput)%setOffset_Ok.
  assert (n' = n) as -> by congruence.
  pose proof (nkeys_range _ _ Hn) as Hnr.
  rewrite u16_small in Hlen, Hput by lia.
  assert (Hk : nkeys node' = Ok n)
    by (rewrite <- Hn; eapply nkeys_PutUint16; [|exact Hput]; cbn; lia).
  split; [|split; [|split; [done|split]]].
  - unfold getOffset. rewrite bool_decide_eq_false_2 by lia.
    rewrite Hk. cbn. rewrite u16_small by lia.
    unfold slice_from. rewrite (blen_PutUint16 _ _ _ _ Hput).
    rewrite bool_decide_eq_true_2 by lia. cbn.
    pose proof (blen_le_bcap node).
    eapply Uint16_PutUint16; [..|exact Hput]; cbn; lia.
  - eapply btype_PutUint16; [|exact Hput]; cbn; lia.
  - intros j Hj.
    eapply getPtr_PutUint16_apart; [| |exact Hput]; cbn; [lia|].
    rewrite u16_small by lia. lia.
  - intros j Hj Hne.
    destruct (Z.eq_dec j 0) as [->|Hj0].
    { unfold getOffset. by rewrite !bool_decide_eq_true_2 by done. }
    eapply getOffset_PutUint16_apart; [|exact Hn|done| |exact Hput];
      cbn; [lia|].
    rewrite u16_small by lia. lia.
Qed.

(** ** Where an append can land *)

Lemma setOffset_below_1 node idx offset :
  idx ≤ 0 → setOffset node idx offset = Panic.
Proof.
  intros Hidx. unfold setOffset, offsetPos.
  destruct (nkeys node) as [n| |] eqn:Hn; cbn; try done.
  - by rewrite bool_decide_eq_false_2 by lia.
  - by destruct (finite_nkeys node).
Qed.

Lemma nodeAppendKV_below_1 new idx ptr key val :
  idx ≤ 0 → nodeAppendKV new idx ptr key val = Panic.
Proof.
  intros Hidx. unfold nodeAppendKV, nodeAppendKV_arg.
  repeat first
    [ by apply setOffset_below_1
    | apply bind_always_panics; [ solve [ auto with finite ] | intros ? ]
    | progress cbv zeta ].
Qed.

(** X4.  [nodeAppendKV] returns only for a slot from 1 to [nkeys - 1]: slot
    0 and slots at or past [nkeys] make it panic. *)
Theorem nodeAppendKV_slot_bounds new idx ptr key val new' :
  nodeAppendKV new idx ptr key val = Ok new' →
  ∃ n, nkeys new = Ok n ∧ 1 ≤ idx < n.
Proof.
  intros Happ.
  destruct (Z.le_gt_cases idx 0) as [Hle|Hgt].
  { by rewrite nodeAppendKV_below_1 in Happ. }
  unfold nodeAppendKV, nodeAppendKV_arg in Happ.
  apply bind_Ok in Happ as (new1 & (n & Hn & Hidx & _)%setPtr_Ok & _).
  exists n. split; [done|lia].
Qed.

(** ** What the tree operations return *)

(** X5.  [nodeSplit3] returns exactly when the node fits in a page and its
    buffer has room for a page; it then returns that node alone, cut to
    4096 bytes.  A node that does not fit is never split. *)
Theorem nodeSplit3_returns_iff old r :
  nodeSplit3 old = Ok r ↔
  ∃ nb, nbytes old = Ok nb ∧ nb ≤ BTREE_PAGE_SIZE
        ∧ BTREE_PAGE_SIZE ≤ bcap old
        ∧ r = (1, [mkBNode (take (Z.to_nat BTREE_PAGE_SIZE) (backing old))
                           (drop (Z.to_nat BTREE_PAGE_SIZE) (backing old));
                   nilNode; nilNode]).
Proof.
  unfold nodeSplit3, truncate. split.
  - intros (nb & Hnb & Hrest)%bind_Ok. exists nb. split; [done|].
    case_bool_decide as Hfit.
    + apply bind_Ok in Hrest as (old' & Hcut & [= <-]).
      case_bool_decide as Hcap; [|done]. injection Hcut as <-.
      repeat split; [done|lia].
    + exfalso. apply bind_Ok in Hrest as (p & Hp & _).
      by destruct (nodeSplit2_fails _ _ _ _ Hp).
  - intros (nb & -> & Hfit & Hcap & ->). cbn.
    rewrite bool_decide_eq_true_2 by done.
    rewrite bool_decide_eq_true_2; [done|].
    unfold BTREE_PAGE_SIZE in *. lia.
Qed.

(** X6.  [leafInsert] and [leafUpdate] panic on every node, index, key and
    value: each reaches an append at slot 0, directly or through its first
    range copy. *)
Theorem leaf_edits_panic new old idx key val :
  leafInsert new old idx key val = Panic
  ∧ leafUpdate new old idx key val = Panic.
Proof.
  split.
  - unfold leafInsert.
    apply bind_always_panics; [auto with finite|]. intros n.
    apply bind_always_panics; [auto with finite|]. intros new'.
    destruct (Z.le_gt_cases idx 0) as [Hle|Hgt].
    + rewrite nodeAppendRange_none by done. cbn.
      by rewrite nodeAppendKV_below_1.
    + by rewrite (nodeAppendRange_slot0 new' old 0 idx) by lia.
  - unfold leafUpdate.
    apply bind_always_panics; [auto with finite|]. intros n.
    apply bind_always_panics; [auto with finite|]. intros new'.
    destruct (Z.le_gt_cases idx 0) as [Hle|Hgt].
    + rewrite nodeAppendRange_none by done. cbn.
      by rewrite nodeAppendKV_below_1.
    + by rewrite (nodeAppendRange_slot0 new' old 0 idx) by lia.
Qed.

Section ControllerFacts.

Context {St : Type} `{PageStore St}.

(** X7.  With at least one kid to splice in, [nodeReplaceKidN] never
    returns: the entries before [idx], or else the first kid, are appended
    at slot 0. *)
Theorem nodeReplaceKidN_with_kids_fails
    (tree : BTree St) new old idx kids :
  0 ≤ idx → kids ≠ [] → fails (nodeReplaceKidN tree new old idx kids).
Proof.
  intros Hidx Hkids. unfold nodeReplaceKidN. cbv zeta.
  apply fails_bind; intros n _. apply fails_bind; intros new' _.
  destruct (Z.eq_dec idx 0) as [->|Hpos].
  - rewrite nodeAppendRange_none by done. cbn.
    destruct kids as [|node kids]; [done|]. cbn.
    apply fails_bind; intros [tree' new''] Hloop. exfalso. revert Hloop.
    apply (fails_bind (tree_new tree node)); intros [tree1 p] _.
    apply fails_bind; intros k _.
    change (u16 (0 + u16 0)) with 0.
    rewrite nodeAppendKV_slot0. apply fails_Panic.
  - rewrite (nodeAppendRange_slot0 new' old 0 idx) by lia. apply fails_Panic.
Qed.

(** X8.  The only thing [Insert] ever returns is the size-limit error, with
    the tree as it was: every other call panics or does not end. *)
Theorem Insert_returns_only_size_error
    depth (tree : BTree St) key value r :
  Insert depth tree key value = Ok r →
  r = (tree, Some "length of key or value too large!"%string)
  ∧ len key > 999 ∧ len value > 2999.
Proof.
  intros Hret. destruct r as [tree' [err|]].
  - destruct (checkLimit key value) as [e|] eqn:Hlimit.
    + unfold Insert in Hret. rewrite Hlimit in Hret.
      injection Hret as <- <-.
      apply checkLimit_Some in Hlimit as (Hk & Hv & ->). done.
    + by apply (Insert_returns_nil _ _ _ _ Hlimit) in Hret.
  - by destruct (Insert_never_returns_nil _ _ _ _ _ Hret).
Qed.

(** X9.  With no left sibling to try ([idx = 0]) and an updated child of 4
    to 1024 bytes, [shouldMerge] picks the right sibling whenever there is
    one and its type tag is 1 or 2, whatever the sibling's size. *)
Theorem shouldMerge_right_whatever_size
    (tree tree' : BTree St) node updated ub n p sibling t :
  nbytes updated = Ok ub → HEADER ≤ ub ≤ BTREE_PAGE_SIZE / 4 →
  nkeys node = Ok n → 1 < n →
  getPtr node 1 = Ok p →
  tree_get tree (u64 p) = Ok (tree', sibling) →
  btype sibling = Ok t → t = BNODE_NODE ∨ t = BNODE_LEAF →
  shouldMerge tree node 0 updated = Ok (tree', (1, sibling)).
Proof.
  intros Hub Hsmall Hn Hn1 Hp Hget Ht Htag. unfold shouldMerge.
  rewrite Hub. cbn [mbind result_bind].
  rewrite bool_decide_eq_false_2 by lia.
  rewrite (bool_decide_eq_false_2 (0 > 0)) by lia. cbn [mbind result_bind].
  rewrite Hn. cbn [mbind result_bind].
  change (u16 (0 + 1)) with 1.
  rewrite bool_decide_eq_true_2 by lia.
  rewrite Hp. cbn [mbind result_bind]. rewrite Hget. cbn [mbind result_bind].
  rewrite Ht. cbn [mbind result_bind].
  rewrite bool_decide_eq_true_2; [done|].
  unfold HEADER, BTREE_PAGE_SIZE, BNODE_NODE, BNODE_LEAF in *.
  change (4096 `div` 4) with 1024 in Hsmall.
  rewrite u16_small by lia. lia.
Qed.

Variable treeDelete :
  BTree St → BNode → list byte → result (BTree St * BNode).
Variable nodeMerge : BNode → BNode → BNode → result BNode.
Variable nodeReplace2Kid :
  BNode → BNode → Z → Z → list byte → result BNode.

(** X10.  When [shouldMerge] answers "merge right", [nodeDelete] merges
    nothing: both merge cases of its switch test [mergeDir < 0], so it
    returns a zeroed page, whatever [nodeMerge] and [nodeReplace2Kid]
    are, after freeing only the old child. *)
Theorem nodeDelete_merge_right_returns_zero_page
    (tree tree1 tree2 : BTree St) node idx kptr updated mergeDir sibling :
  blen updated ≠ 0 →
  tree_del tree (u64 kptr) = Ok tree1 →
  shouldMerge tree1 node idx updated = Ok (tree2, (mergeDir, sibling)) →
  0 < mergeDir →
  nodeDelete_splice nodeMerge nodeReplace2Kid tree node idx kptr updated
  = Ok (tree2, make BTREE_PAGE_SIZE).
Proof.
  intros Hlen Hdel Hmerge Hdir. unfold nodeDelete_splice.
  rewrite bool_decide_eq_false_2 by done.
  rewrite Hdel. cbn [mbind result_bind]. cbv zeta.
  rewrite Hmerge. cbn [mbind result_bind].
  rewrite !(bool_decide_eq_false_2 (mergeDir < 0)) by lia.
  rewrite !(bool_decide_eq_false_2 (mergeDir = 0)) by lia.
  reflexivity.
Qed.

End ControllerFacts.

(** ** Lookup *)

Lemma byte_to_Z_inj a b : byte_to_Z a = byte_to_Z b → a = b.
Proof.
  unfold byte_to_Z. intros Heq%N2Z.inj.
  pose proof (Byte.of_to_N a) as Ha. rewrite Heq, Byte.of_to_N in Ha.
  congruence.
Qed.

Lemma bytes_Compare_eq a b : bytes_Compare a b = 0 → a = b.
Proof.
  revert b. induction a as [|x a IH]; intros [|y b]; cbn; try done.
  destruct (Z.ltb_spec (byte_to_Z x) (byte_to_Z y)); [done|].
  destruct (Z.ltb_spec (byte_to_Z y) (byte_to_Z x)); [done|].
  intros ->%IH. f_equal. apply byte_to_Z_inj. lia.
Qed.

Lemma bytes_Compare_refl a : bytes_Compare a a = 0.
Proof.
  induction a as [|x a IH]; cbn; [done|].
  by rewrite Z.ltb_irrefl.
Qed.

(** The scan from [i]: the keys it passes are below the search key, and
    it stops at the first key that is not, or at the end. *)
Lemma nodeLookupLE_from_spec node key r rounds i :
  nodeLookupLE_from rounds i node key = Ok r →
  ∃ j, i ≤ j ≤ i + Z.of_nat rounds
    ∧ (∀ i', i ≤ i' < j →
         ∃ k, getKey node i' = Ok k ∧ bytes_Compare k key < 0)
    ∧ ((j < i + Z.of_nat rounds ∧ getKey node j = Ok key ∧ r = j)
       ∨ (j < i + Z.of_nat rounds
          ∧ (∃ k, getKey node j = Ok k ∧ bytes_Compare k key > 0)
          ∧ r = u16 (j - 1))
       ∨ (j = i + Z.of_nat rounds ∧ r = u16 (j - 1))).
Proof.
  revert i. induction rounds as [|rounds IH]; intros i; cbn [nodeLookupLE_from].
  - intros [= <-]. exists i. split; [lia|]. split; [intros; lia|].
    right. right. split; [lia|done].
  - intros (k & Hk & Hrest)%bind_Ok. cbv zeta in Hrest.
    case_bool_decide as Heq.
    { injection Hrest as <-. apply bytes_Compare_eq in Heq as ->.
      exists i. split; [lia|]. split; [intros; lia|]. left.
      split; [lia|done]. }
    case_bool_decide as Hgt.
    { injection Hrest as <-. exists i. split; [lia|].
      split; [intros; lia|]. right. left. split; [lia|]. eauto. }
    apply IH in Hrest as (j & Hj & Hbelow & Hstop).
    exists j. split; [lia|]. split.
    + intros i' Hi'. destruct (Z.eq_dec i' i) as [->|].
      * exists k. split; [done|lia].
      * apply Hbelow. lia.
    + replace (i + Z.of_nat (S rounds)) with (i + 1 + Z.of_nat rounds) by lia.
      done.
Qed.

(** X11.  [nodeLookupLE] scans the keys in slot order.  When it returns,
    every key before some slot [j] compares below the search key, and
    either slot [j] holds the search key and [j] is returned, or slot [j]
    holds a greater key, or [j] is [nkeys], and [j - 1] is returned as a
    [uint16]. *)
Theorem nodeLookupLE_scans_in_order node key n r :
  nkeys node = Ok n → nodeLookupLE node key = Ok r →
  ∃ j, 0 ≤ j ≤ n
    ∧ (∀ i, 0 ≤ i < j →
         ∃ k, getKey node i = Ok k ∧ bytes_Compare k key < 0)
    ∧ ((j < n ∧ getKey node j = Ok key ∧ r = j)
       ∨ (j < n ∧ (∃ k, getKey node j = Ok k ∧ bytes_Compare k key > 0)
          ∧ r = u16 (j - 1))
       ∨ (j = n ∧ r = u16 (j - 1))).
Proof.
  intros Hn. unfold nodeLookupLE. rewrite Hn. cbn [mbind result_bind].
  intros Hscan%nodeLookupLE_from_spec.
  pose proof (nkeys_range _ _ Hn).
  by rewrite Z2Nat.id, Z.add_0_l in Hscan by lia.
Qed.

(** X12.  On a node without keys, and on a node whose first key is above the
    search key, [nodeLookupLE] returns 65535, the [uint16] that [0 - 1]
    wraps to, and not a slot of the node. *)
Theorem nodeLookupLE_below_all_keys node key n :
  nkeys node = Ok n →
  n = 0 ∨ (∃ k, getKey node 0 = Ok k ∧ bytes_Compare k key > 0) →
  nodeLookupLE node key = Ok 65535 ∧ getKey node 65535 = Panic.
Proof.
  intros Hn Hcase.
  pose proof (nkeys_range _ _ Hn) as Hr. split.
  - unfold nodeLookupLE. rewrite Hn. cbn [mbind result_bind].
    destruct Hcase as [->|(k & Hk & Hgt)]; [done|].
    assert (Hpos : n ≠ 0).
    { intros ->. unfold getKey, getKey_view in Hk. rewrite Hn in Hk.
      done. }
    destruct (Z.to_nat n) as [|rounds] eqn:Hrounds; [lia|].
    cbn [nodeLookupLE_from]. rewrite Hk. cbn [mbind result_bind]. cbv zeta.
    rewrite bool_decide_eq_false_2 by lia.
    by rewrite bool_decide_eq_true_2 by done.
  - unfold getKey, getKey_view. rewrite Hn. cbn [mbind result_bind].
    by rewrite bool_decide_eq_false_2 by lia.
Qed.

(** ** The getters against the node format *)

Import layout.

Lemma length_le16 v : length (le16 v) = 2%nat.
Proof. done. Qed.

Lemma length_le64 p : length (le64 p) = 8%nat.
Proof. done. Qed.

Lemma len_le16 v : len (le16 v) = 2.
Proof. done. Qed.

Lemma len_app a b : len (a ++ b) = len a + len b.
Proof. unfold len. rewrite length_app. lia. Qed.

Lemma len_nonneg a : 0 ≤ len a.
Proof. unfold len. lia. Qed.

Lemma len_concat_const {A} (f : A → list byte) (c : nat) (l : list A) :
  (∀ x, length (f x) = c) →
  len (concat (map f l)) = Z.of_nat c * Z.of_nat (length l).
Proof.
  intros Hc. unfold len. induction l as [|x l IH]; cbn; [lia|].
  rewrite length_app, Hc. lia.
Qed.

Lemma len_entry k v : len (entry k v) = 4 + len k + len v.
Proof. unfold entry, len. rewrite !length_app, !length_le16. lia. Qed.

Lemma len_entries es :
  len (concat (map (λ e, entry (i_key e) (i_val e)) es)) = kv_size es.
Proof.
  induction es as [|e es IH]; [done|].
  rewrite map_cons, concat_cons, len_app, len_entry, IH.
  change (kv_size (e :: es)) with (item_size e + kv_size es).
  unfold item_size. lia.
Qed.

Lemma kv_size_cons e es : kv_size (e :: es) = item_size e + kv_size es.
Proof. done. Qed.

Lemma item_size_pos e : 4 ≤ item_size e.
Proof.
  unfold item_size. pose proof (len_nonneg (i_key e)).
  pose proof (len_nonneg (i_val e)). lia.
Qed.

Lemma kv_size_nonneg es : 0 ≤ kv_size es.
Proof.
  induction es as [|e es IH]; [done|].
  rewrite kv_size_cons. pose proof (item_size_pos e). lia.
Qed.

Lemma kv_size_app es1 es2 : kv_size (es1 ++ es2) = kv_size es1 + kv_size es2.
Proof.
  induction es1 as [|e es1 IH]; [done|].
  rewrite <- app_comm_cons, !kv_size_cons. lia.
Qed.

Lemma kv_size_take_le es i : kv_size (take i es) ≤ kv_size es.
Proof.
  rewrite <- (take_drop i es) at 2. rewrite kv_size_app.
  pose proof (kv_size_nonneg (drop i es)). lia.
Qed.

Lemma length_offsets acc es : length (offsets acc es) = length es.
Proof. revert acc. induction es as [|e es IH]; intros acc; cbn; auto. Qed.

Lemma offsets_lookup acc es i :
  (i < length es)%nat →
  offsets acc es !! i = Some (acc + kv_size (take (S i) es)).
Proof.
  revert acc i. induction es as [|e es IH]; intros acc i Hi; cbn in Hi; [lia|].
  destruct i as [|i]; cbn [offsets lookup list_lookup].
  - rewrite firstn_cons, take_0, kv_size_cons. cbn. f_equal. lia.
  - rewrite IH by lia. rewrite (firstn_cons (S i)), kv_size_cons.
    f_equal. lia.
Qed.

Lemma len_encode t es : len (encode t es) = encoded_size es.
Proof.
  unfold encode, encoded_size. rewrite !len_app, len_entries.
  rewrite (len_concat_const _ 8) by done.
  rewrite (len_concat_const _ 2) by done.
  rewrite length_offsets. unfold len. cbn. lia.
Qed.

Lemma concat_map_middle {A} (f : A → list byte) (l : list A) i x :
  l !! i = Some x →
  concat (map f l)
  = concat (map f (take i l)) ++ f x ++ concat (map f (drop (S i) l)).
Proof.
  intros Hx. rewrite <- (take_drop_middle l i x Hx) at 1.
  by rewrite map_app, concat_app.
Qed.

Lemma low_byte_mod v : (v mod 65536) mod 256 = v mod 256.
Proof.
  pose proof (Z.div_mod v 65536 ltac:(lia)).
  pose proof (Z.mod_pos_bound v 65536 ltac:(lia)).
  pose proof (Z.div_mod (v mod 65536) 256 ltac:(lia)).
  pose proof (Z.mod_pos_bound (v mod 65536) 256 ltac:(lia)).
  apply (Z.mod_unique v 256
           (256 * (v `div` 65536) + (v mod 65536) `div` 256)); lia.
Qed.

Lemma high_byte_mod v :
  Z.shiftr (v mod 65536) 8 mod 256 = Z.shiftr v 8 mod 256.
Proof.
  rewrite !Z.shiftr_div_pow2 by lia. change (2 ^ 8) with 256.
  pose proof (Z.div_mod v 65536 ltac:(lia)).
  pose proof (Z.mod_pos_bound v 65536 ltac:(lia)).
  pose proof (Z.div_mod (v mod 65536) 256 ltac:(lia)).
  pose proof (Z.mod_pos_bound (v mod 65536) 256 ltac:(lia)).
  assert (Hdiv : v `div` 256
                 = 256 * (v `div` 65536) + (v mod 65536) `div` 256)
    by (symmetry; apply (Z.div_unique v 256 _ ((v mod 65536) mod 256)); lia).
  rewrite Hdiv, Z.add_comm, Z.mul_comm, Z.mod_add by lia. done.
Qed.

Lemma le16_mod v : le16 (v mod 65536) = le16 v.
Proof.
  unfold le16, byte_of_Z. by rewrite low_byte_mod, high_byte_mod.
Qed.

(** A 16-bit field that sits in the backing array right after [pre]. *)
Lemma Uint16_field node w pre v post :
  backing node = pre ++ le16 v ++ post →
  w_off w = len pre → 2 ≤ w_len w → 0 ≤ v < 65536 →
  Uint16 node w = Ok v.
Proof.
  intros HB Hoff Hlen Hv.
  assert (H0 : read_byte node (len pre) = Ok (byte_of_Z v)).
  { unfold read_byte, len. rewrite HB, Nat2Z.id.
    rewrite lookup_app_r by lia. by rewrite Nat.sub_diag. }
  assert (H1 : read_byte node (len pre + 1) = Ok (byte_of_Z (Z.shiftr v 8))).
  { unfold read_byte, len. rewrite HB.
    replace (Z.to_nat (Z.of_nat (length pre) + 1)) with (S (length pre))
      by lia.
    rewrite lookup_app_r by lia.
    by replace (S (length pre) - length pre)%nat with 1%nat by lia. }
  unfold Uint16, assert.
  rewrite bool_decide_eq_true_2 by done. cbn [mbind result_bind].
  rewrite Hoff, H0. cbn [mbind result_bind].
  rewrite H1. cbn [mbind result_bind]. by rewrite le16_join.
Qed.

Lemma read16_field node pos pre v post :
  backing node = pre ++ le16 v ++ post →
  pos = len pre → pos + 2 ≤ blen node → 0 ≤ v < 65536 →
  (w ← slice_from node pos; Uint16 node w) = Ok v.
Proof.
  intros HB -> Hlen Hv. unfold slice_from.
  pose proof (len_nonneg pre).
  rewrite bool_decide_eq_true_2 by lia. cbn [mbind result_bind].
  eapply Uint16_field; [exact HB|done|cbn; lia|done].
Qed.

Lemma slice_from_in node pos :
  0 ≤ pos ≤ blen node →
  slice_from node pos = Ok (mkWindow pos (blen node - pos)).
Proof. intros. unfold slice_from. by rewrite bool_decide_eq_true_2. Qed.

(** The bytes that sit in the backing array right after [pre]. *)
Lemma read_field node pre bs post :
  backing node = pre ++ bs ++ post →
  read node (mkWindow (len pre) (len bs)) = bs.
Proof.
  intros HB. unfold read. cbn. rewrite HB. unfold len.
  rewrite !Nat2Z.id, drop_app_length. apply take_app_length.
Qed.

Section Decode.

Variables (t : Z) (es : list item) (unused tail : list byte).
Hypothesis Ht : 0 ≤ t < 65536.
Hypothesis Hsize : encoded_size es < 65536.

#[local] Abbreviation node := (node_of t es unused tail).
#[local] Abbreviation n := (Z.of_nat (length es)).
#[local] Abbreviation ptrs := (concat (map (λ e, le64 (i_ptr e)) es)).
#[local] Abbreviation offs := (concat (map le16 (offsets 0 es))).
#[local] Abbreviation kvs :=
  (concat (map (λ e, entry (i_key e) (i_val e)) es)).

Lemma backing_node :
  backing node
  = le16 t ++ le16 n ++ ptrs ++ offs ++ kvs ++ unused ++ tail.
Proof.
  unfold backing, node_of, encode. cbn [visible spare].
  by rewrite <- ?app_assoc.
Qed.

Lemma blen_node : blen node = encoded_size es + len unused.
Proof.
  unfold blen, node_of. cbn [visible].
  change (Z.of_nat (length (encode t es ++ unused)))
    with (len (encode t es ++ unused)).
  by rewrite len_app, len_encode.
Qed.

Lemma n_small : 0 ≤ n ∧ 4 + 10 * n ≤ encoded_size es.
Proof.
  unfold encoded_size. pose proof (kv_size_nonneg es). lia.
Qed.

Lemma btype_node : btype node = Ok t.
Proof.
  pose proof n_small. pose proof blen_node. pose proof (blen_le_bcap node).
  pose proof (len_nonneg unused).
  unfold btype, slice_range. rewrite bool_decide_eq_true_2 by lia.
  cbn [mbind result_bind assert].
  apply (Uint16_field _ _ [] t
           (le16 n ++ ptrs ++ offs ++ kvs ++ unused ++ tail));
    [apply backing_node|done|cbn; lia|done].
Qed.

Lemma nkeys_node : nkeys node = Ok n.
Proof.
  pose proof n_small. pose proof blen_node. pose proof (blen_le_bcap node).
  pose proof (len_nonneg unused).
  unfold nkeys, slice_range. rewrite bool_decide_eq_true_2 by lia.
  cbn [mbind result_bind assert].
  apply (Uint16_field _ _ (le16 t) n
           (ptrs ++ offs ++ kvs ++ unused ++ tail));
    [|done|cbn; lia|lia].
  rewrite backing_node. by rewrite <- ?app_assoc.
Qed.

Lemma len_ptrs_take i :
  (i ≤ length es)%nat →
  len (concat (map (λ e, le64 (i_ptr e)) (take i es))) = 8 * Z.of_nat i.
Proof.
  intros Hi. rewrite (len_concat_const _ 8) by done.
  rewrite length_take. lia.
Qed.

Lemma getPtr_node i e :
  es !! i = Some e → getPtr node (Z.of_nat i) = Ok (i_ptr e mod 65536).
Proof.
  intros Hi. pose proof (lookup_lt_Some _ _ _ Hi) as Hlt.
  pose proof n_small. pose proof blen_node. pose proof (len_nonneg unused).
  unfold getPtr. rewrite nkeys_node. cbn [mbind result_bind assert].
  rewrite bool_decide_eq_true_2 by lia. cbn [mbind result_bind assert]. cbv zeta.
  rewrite u16_small by lia.
  apply (read16_field _ _
           (le16 t ++ le16 n
            ++ concat (map (λ e, le64 (i_ptr e)) (take i es)))
           (i_ptr e mod 65536)
           (le16 (Z.shiftr (i_ptr e) 16) ++ le16 (Z.shiftr (i_ptr e) 32)
            ++ le16 (Z.shiftr (i_ptr e) 48)
            ++ concat (map (λ e, le64 (i_ptr e)) (drop (S i) es))
            ++ offs ++ kvs ++ unused ++ tail)).
  - rewrite backing_node, le16_mod.
    rewrite (concat_map_middle (λ e, le64 (i_ptr e)) es i e Hi).
    unfold le64. by rewrite <- ?app_assoc.
  - rewrite !len_app, len_ptrs_take by lia. unfold len. cbn. lia.
  - lia.
  - apply Z.mod_pos_bound. lia.
Qed.

Lemma getOffset_node idx :
  (idx ≤ length es)%nat →
  getOffset node (Z.of_nat idx) = Ok (kv_size (take idx es)).
Proof.
  intros Hidx. pose proof n_small. pose proof blen_node.
  pose proof (len_nonneg unused). pose proof (kv_size_nonneg es).
  unfold getOffset. destruct idx as [|i].
  { by rewrite bool_decide_eq_true_2 by done. }
  rewrite bool_decide_eq_false_2 by lia.
  rewrite nkeys_node. cbn [mbind result_bind assert]. cbv zeta.
  assert (Hoff : offsets 0 es !! i = Some (0 + kv_size (take (S i) es)))
    by (apply offsets_lookup; lia).
  rewrite Z.add_0_l in Hoff.
  pose proof (kv_size_take_le es (S i)).
  pose proof (kv_size_nonneg (take (S i) es)).
  unfold encoded_size in *.
  rewrite u16_small by lia.
  apply (read16_field _ _
           (le16 t ++ le16 n ++ ptrs
            ++ concat (map le16 (take i (offsets 0 es))))
           (kv_size (take (S i) es))
           (concat (map le16 (drop (S i) (offsets 0 es)))
            ++ kvs ++ unused ++ tail)).
  - rewrite backing_node, (concat_map_middle le16 _ i _ Hoff).
    by rewrite <- ?app_assoc.
  - rewrite !len_app, (len_concat_const _ 8), (len_concat_const _ 2) by done.
    rewrite length_take, length_offsets. unfold len. cbn. lia.
  - lia.
  - lia.
Qed.

Lemma kvPos_node idx :
  (idx ≤ length es)%nat →
  kvPos node (Z.of_nat idx) = Ok (4 + 10 * n + kv_size (take idx es)).
Proof.
  intros Hidx. pose proof n_small. pose proof (kv_size_nonneg es).
  pose proof (kv_size_take_le es idx).
  pose proof (kv_size_nonneg (take idx es)).
  unfold kvPos. rewrite nkeys_node. cbn [mbind result_bind assert].
  rewrite bool_decide_eq_true_2 by lia. cbn [mbind result_bind assert].
  rewrite getOffset_node by done. cbn [mbind result_bind assert].
  unfold encoded_size in *. rewrite u16_small by lia.
  apply (f_equal Ok). lia.
Qed.

Lemma nbytes_node : nbytes node = Ok (encoded_size es).
Proof.
  unfold nbytes. rewrite nkeys_node. cbn [mbind result_bind assert].
  rewrite kvPos_node by done. by rewrite take_ge by done.
Qed.

(** The backing array around item [i]. *)
Lemma backing_at_item i e :
  es !! i = Some e →
  backing node
  = (le16 t ++ le16 n ++ ptrs ++ offs
     ++ concat (map (λ e, entry (i_key e) (i_val e)) (take i es)))
    ++ le16 (len (i_key e))
    ++ le16 (len (i_val e)) ++ i_key e ++ i_val e
    ++ concat (map (λ e, entry (i_key e) (i_val e)) (drop (S i) es))
    ++ unused ++ tail.
Proof.
  intros Hi. rewrite backing_node.
  rewrite (concat_map_middle (λ e, entry (i_key e) (i_val e)) es i e Hi).
  unfold entry. by rewrite <- ?app_assoc.
Qed.

Lemma len_before_item i :
  (i ≤ length es)%nat →
  len (le16 t ++ le16 n ++ ptrs ++ offs
       ++ concat (map (λ e, entry (i_key e) (i_val e)) (take i es)))
  = 4 + 10 * n + kv_size (take i es).
Proof.
  intros Hi. rewrite !len_app, len_entries.
  rewrite (len_concat_const _ 8), (len_concat_const _ 2) by done.
  rewrite length_offsets. unfold len. cbn. lia.
Qed.

Lemma item_fits i e :
  es !! i = Some e →
  4 + 10 * n + kv_size (take i es) + item_size e ≤ encoded_size es.
Proof.
  intros Hi. unfold encoded_size.
  assert (Hsplit : kv_size es
                   = kv_size (take i es ++ e :: drop (S i) es))
    by (by rewrite take_drop_middle).
  rewrite kv_size_app, kv_size_cons in Hsplit.
  pose proof (kv_size_nonneg (drop (S i) es)). lia.
Qed.

Lemma getKey_node i e :
  es !! i = Some e → getKey node (Z.of_nat i) = Ok (i_key e).
Proof.
  intros Hi. pose proof (lookup_lt_Some _ _ _ Hi) as Hlt.
  pose proof n_small. pose proof blen_node. pose proof (blen_le_bcap node).
  pose proof (len_nonneg unused). pose proof (item_fits i e Hi) as Hfit.
  pose proof (kv_size_nonneg (take i es)).
  pose proof (len_nonneg (i_key e)). pose proof (len_nonneg (i_val e)).
  unfold item_size in Hfit.
  set (pos := 4 + 10 * n + kv_size (take i es)) in *.
  unfold getKey, getKey_view. rewrite nkeys_node. cbn [mbind result_bind assert].
  rewrite bool_decide_eq_true_2 by lia. cbn [mbind result_bind assert].
  rewrite kvPos_node by lia. fold pos. cbn [mbind result_bind assert].
  rewrite (slice_from_in node pos) by lia. cbn [mbind result_bind assert].
  rewrite (Uint16_field node _ _ (len (i_key e)) _ (backing_at_item i e Hi));
    [|cbn [w_off]; by rewrite len_before_item by lia
     |cbn [w_len]; lia|lia].
  cbn [mbind result_bind assert]. rewrite u16_small by lia.
  rewrite slice_from_in by lia. cbn [mbind result_bind assert].
  unfold reslice_to. cbn [w_off]. rewrite bool_decide_eq_true_2 by lia.
  cbn [mbind result_bind assert]. f_equal.
  replace (pos + 4)
    with (len ((le16 t ++ le16 n ++ ptrs ++ offs
                ++ concat (map (λ e, entry (i_key e) (i_val e)) (take i es)))
               ++ le16 (len (i_key e)) ++ le16 (len (i_val e)))).
  - apply (read_field node _ (i_key e)
             (i_val e
              ++ concat (map (λ e, entry (i_key e) (i_val e)) (drop (S i) es))
              ++ unused ++ tail)).
    rewrite (backing_at_item i e Hi). by rewrite <- ?app_assoc.
  - rewrite len_app, len_before_item by lia. unfold len. cbn. lia.
Qed.

Lemma getValue_node i e :
  es !! i = Some e → getValue node (Z.of_nat i) = Ok (i_val e).
Proof.
  intros Hi. pose proof (lookup_lt_Some _ _ _ Hi) as Hlt.
  pose proof n_small. pose proof blen_node. pose proof (blen_le_bcap node).
  pose proof (len_nonneg unused). pose proof (item_fits i e Hi) as Hfit.
  pose proof (kv_size_nonneg (take i es)).
  pose proof (len_nonneg (i_key e)). pose proof (len_nonneg (i_val e)).
  unfold item_size in Hfit.
  set (pos := 4 + 10 * n + kv_size (take i es)) in *.
  unfold getValue. rewrite nkeys_node. cbn [mbind result_bind assert].
  rewrite bool_decide_eq_true_2 by lia. cbn [mbind result_bind assert].
  rewrite kvPos_node by lia. fold pos. cbn [mbind result_bind assert].
  rewrite Z.add_0_r, (u16_small pos) by lia.
  rewrite (slice_from_in node pos) by lia. cbn [mbind result_bind assert].
  rewrite (Uint16_field node _ _ (len (i_key e)) _ (backing_at_item i e Hi));
    [|cbn [w_off]; by rewrite len_before_item by lia
     |cbn [w_len]; lia|lia].
  cbn [mbind result_bind assert]. rewrite (u16_small (pos + 2)) by lia.
  rewrite (slice_from_in node (pos + 2)) by lia.
  cbn [mbind result_bind assert].
  rewrite (Uint16_field node _
             ((le16 t ++ le16 n ++ ptrs ++ offs
               ++ concat (map (λ e, entry (i_key e) (i_val e)) (take i es)))
              ++ le16 (len (i_key e)))
             (len (i_val e))
             (i_key e ++ i_val e
              ++ concat (map (λ e, entry (i_key e) (i_val e)) (drop (S i) es))
              ++ unused ++ tail));
    [|rewrite (backing_at_item i e Hi); by rewrite <- ?app_assoc
     |cbn [w_off]; rewrite len_app, len_before_item by lia;
      unfold len; cbn; lia
     |cbn [w_len]; lia|lia].
  cbn [mbind result_bind assert]. rewrite u16_small by lia.
  rewrite slice_from_in by lia. cbn [mbind result_bind assert].
  unfold reslice_to. cbn [w_off]. rewrite bool_decide_eq_true_2 by lia.
  cbn [mbind result_bind assert]. f_equal.
  replace (pos + 4 + len (i_key e))
    with (len ((le16 t ++ le16 n ++ ptrs ++ offs
                ++ concat (map (λ e, entry (i_key e) (i_val e)) (take i es)))
               ++ le16 (len (i_key e)) ++ le16 (len (i_val e))
               ++ i_key e)).
  - apply (read_field node _ (i_val e)
             (concat (map (λ e, entry (i_key e) (i_val e)) (drop (S i) es))
              ++ unused ++ tail)).
    rewrite (backing_at_item i e Hi). by rewrite <- ?app_assoc.
  - rewrite len_app, len_before_item by lia. rewrite !len_app, !len_le16.
    lia.
Qed.

End Decode.

(** X13.  On a node laid out in the documented format, with a type tag and
    a total size below 2^16, [btype], [nkeys] and [nbytes] return the
    tag, the number of items and the size of the encoding. *)
Theorem header_getters_decode_format t es unused spare :
  0 ≤ t < 65536 → encoded_size es < 65536 →
  btype (node_of t es unused spare) = Ok t
  ∧ nkeys (node_of t es unused spare) = Ok (Z.of_nat (length es))
  ∧ nbytes (node_of t es unused spare) = Ok (encoded_size es).
Proof.
  intros Ht Hsize.
  split; [by apply btype_node|]. split; [by apply nkeys_node|].
  by apply nbytes_node.
Qed.

(** X14.  On such a node, for every item [i]: [getKey] and [getValue] return
    the item's key and value, [getOffset] the size of the key-values
    before it, and [getPtr] its pointer modulo 2^16. *)
Theorem slot_getters_decode_format t es unused spare i e :
  0 ≤ t < 65536 → encoded_size es < 65536 → es !! i = Some e →
  getKey (node_of t es unused spare) (Z.of_nat i) = Ok (i_key e)
  ∧ getValue (node_of t es unused spare) (Z.of_nat i) = Ok (i_val e)
  ∧ getOffset (node_of t es unused spare) (Z.of_nat i)
    = Ok (kv_size (take i es))
  ∧ getPtr (node_of t es unused spare) (Z.of_nat i)
    = Ok (i_ptr e mod 65536).
Proof.
  intros Ht Hsize Hi. pose proof (lookup_lt_Some _ _ _ Hi).
  split; [by apply getKey_node|]. split; [by apply getValue_node|].
  split; [apply getOffset_node; [done..|lia]|by apply getPtr_node].
Qed.

(** The scan, run forward: it passes the keys below the search key and
    stops at slot [j]. *)
Lemma nodeLookupLE_from_run node key rounds i j r :
  i ≤ j ≤ i + Z.of_nat rounds →
  (∀ i', i ≤ i' < j →
     ∃ k, getKey node i' = Ok k ∧ bytes_Compare k key < 0) →
  (j < i + Z.of_nat rounds ∧ getKey node j = Ok key ∧ r = j)
  ∨ (j < i + Z.of_nat rounds
     ∧ (∃ k, getKey node j = Ok k ∧ bytes_Compare k key > 0)
     ∧ r = u16 (j - 1))
  ∨ (j = i + Z.of_nat rounds ∧ r = u16 (j - 1)) →
  nodeLookupLE_from rounds i node key = Ok r.
Proof.
  revert i. induction rounds as [|rounds IH]; intros i Hj Hbelow Hstop;
    cbn [nodeLookupLE_from].
  - assert (j = i) as -> by lia.
    destruct Hstop as [(? & _)|[(? & _)|(_ & ->)]]; [lia..|done].
  - destruct (Z.eq_dec j i) as [->|Hne].
    + destruct Hstop as [(_ & Hk & ->)|[(_ & (k & Hk & Hgt) & ->)|(? & _)]];
        [| |lia]; rewrite Hk; cbn [mbind result_bind]; cbv zeta.
      * by rewrite bytes_Compare_refl, bool_decide_eq_true_2.
      * rewrite bool_decide_eq_false_2 by lia.
        by rewrite bool_decide_eq_true_2.
    + destruct (Hbelow i ltac:(lia)) as (k & Hk & Hlt).
      rewrite Hk. cbn [mbind result_bind]. cbv zeta.
      rewrite !bool_decide_eq_false_2 by lia.
      apply IH; [lia| |].
      * intros i' Hi'. apply Hbelow. lia.
      * replace (i + 1 + Z.of_nat rounds)
          with (i + Z.of_nat (S rounds)) by lia. done.
Qed.

(** X15.  On a formatted node whose keys before slot [j] are all below the
    key of slot [j], looking that key up returns [j]. *)
Theorem nodeLookupLE_finds_present_key t es unused spare j e :
  0 ≤ t < 65536 → encoded_size es < 65536 →
  es !! j = Some e →
  (∀ i e', (i < j)%nat → es !! i = Some e' →
           bytes_Compare (i_key e') (i_key e) < 0) →
  nodeLookupLE (node_of t es unused spare) (i_key e) = Ok (Z.of_nat j).
Proof.
  intros Ht Hsize Hj Hsorted. pose proof (lookup_lt_Some _ _ _ Hj) as Hlt.
  unfold nodeLookupLE. rewrite nkeys_node by done.
  cbn [mbind result_bind]. rewrite Nat2Z.id.
  apply (nodeLookupLE_from_run _ _ _ _ (Z.of_nat j)); [lia| |].
  - intros i' Hi'.
    destruct (lookup_lt_is_Some_2 es (Z.to_nat i') ltac:(lia)) as [e' He'].
    exists (i_key e'). split.
    + rewrite <- (Z2Nat.id i') by lia. by apply getKey_node.
    + apply (Hsorted (Z.to_nat i')); [lia|done].
  - left. split; [lia|]. split; [by apply getKey_node|done].
Qed.

(** X16.  On a formatted node whose first [j] keys are below the search key,
    and whose slot [j], if there is one, holds a key above it, the lookup
    returns [j - 1] as a [uint16]: the last slot whose key is below the
    search key, or 65535 when there is none. *)
Theorem nodeLookupLE_returns_slot_before_greater_key
    t es unused spare key j :
  0 ≤ t < 65536 → encoded_size es < 65536 →
  (j ≤ length es)%nat →
  (∀ i e, (i < j)%nat → es !! i = Some e →
          bytes_Compare (i_key e) key < 0) →
  (∀ e, es !! j = Some e → bytes_Compare (i_key e) key > 0) →
  nodeLookupLE (node_of t es unused spare) key = Ok (u16 (Z.of_nat j - 1)).
Proof.
  intros Ht Hsize Hj Hbelow Habove.
  unfold nodeLookupLE. rewrite nkeys_node by done.
  cbn [mbind result_bind]. rewrite Nat2Z.id.
  apply (nodeLookupLE_from_run _ _ _ _ (Z.of_nat j)); [lia| |].
  - intros i' Hi'.
    destruct (lookup_lt_is_Some_2 es (Z.to_nat i') ltac:(lia)) as [e' He'].
    exists (i_key e'). split.
    + rewrite <- (Z2Nat.id i') by lia. by apply getKey_node.
    + apply (Hbelow (Z.to_nat i')); [lia|done].
  - destruct (es !! j) as [e|] eqn:He.
    + right. left. pose proof (lookup_lt_Some _ _ _ He).
      split; [lia|]. split; [|done].
      exists (i_key e). split; [by apply getKey_node|by apply Habove].
    + right. right. apply lookup_ge_None in He. split; [lia|done].
Qed.

(** ** What an append writes *)

Lemma same_below_refl p a : same_below p a a.
Proof. by repeat split. Qed.

Lemma same_below_trans p a b c :
  same_below p a b → same_below p b c → same_below p a c.
Proof.
  intros (Hl1 & Hc1 & H1) (Hl2 & Hc2 & H2).
  repeat split; [congruence..|]. intros j Hj. by rewrite H2, H1.
Qed.

Lemma same_below_le p q a b : q ≤ p → same_below p a b → same_below q a b.
Proof.
  intros Hq (Hl & Hc & Hb). repeat split; [done..|].
  intros j Hj. apply Hb. lia.
Qed.

Lemma read_byte_PutUint16_ne node w v node' j :
  0 ≤ w_off w → 0 ≤ j → j ≠ w_off w → j ≠ w_off w + 1 →
  PutUint16 node w v = Ok node' → read_byte node' j = read_byte node j.
Proof.
  intros Hw Hj H0 H1 (_ & ->)%PutUint16_Ok.
  by rewrite !read_byte_write_byte_ne by lia.
Qed.

Lemma PutUint16_same_below p node w v node' :
  0 ≤ w_off w → p ≤ w_off w →
  PutUint16 node w v = Ok node' → same_below p node node'.
Proof.
  intros Hw Hp Hput.
  split; [by apply (blen_PutUint16 _ _ _ _ Hput)|].
  split; [by apply (bcap_PutUint16 _ _ _ _ Hput)|].
  intros j Hj. eapply read_byte_PutUint16_ne; [| | | |exact Hput]; lia.
Qed.

Lemma PutUint16_in node w v :
  2 ≤ w_len w → ∃ node', PutUint16 node w v = Ok node'.
Proof.
  intros Hlen. unfold PutUint16, assert.
  rewrite bool_decide_eq_true_2 by done. cbn. eauto.
Qed.

(** [copy] into a window that lies within the node. *)
Lemma backing_copy node w src :
  backing (copy node w src)
  = take (Z.to_nat (w_off w)) (backing node)
    ++ take (Z.to_nat (Z.min (w_len w) (len src))) src
    ++ drop (Z.to_nat (w_off w) + Z.to_nat (Z.min (w_len w) (len src)))
            (backing node).
Proof. apply backing_with_backing. Qed.

Lemma length_backing_copy node w src :
  0 ≤ w_off w → 0 ≤ w_len w → w_off w + w_len w ≤ bcap node →
  length (backing (copy node w src)) = length (backing node).
Proof.
  intros Hoff Hlen Hcap. unfold bcap in Hcap. unfold len in *.
  rewrite backing_copy, !length_app, !length_take, length_drop.
  unfold len. lia.
Qed.

Lemma bcap_copy node w src :
  0 ≤ w_off w → 0 ≤ w_len w → w_off w + w_len w ≤ bcap node →
  bcap (copy node w src) = bcap node.
Proof. intros. unfold bcap. by rewrite length_backing_copy. Qed.

Lemma blen_copy node w src :
  0 ≤ w_off w → 0 ≤ w_len w → w_off w + w_len w ≤ bcap node →
  blen (copy node w src) = blen node.
Proof.
  intros Hoff Hlen Hcap.
  pose proof (length_backing_copy node w src Hoff Hlen Hcap) as Hl.
  assert (Hv : visible (copy node w src)
               = take (length (visible node)) (backing (copy node w src)))
    by (by rewrite backing_copy).
  unfold blen. rewrite Hv, length_take, Hl.
  unfold backing. rewrite length_app. lia.
Qed.

Lemma read_byte_copy_below node w src j :
  0 ≤ w_len w → w_off w + w_len w ≤ bcap node →
  0 ≤ j < w_off w → read_byte (copy node w src) j = read_byte node j.
Proof.
  intros Hlen Hcap Hj. unfold read_byte, bcap in *. rewrite backing_copy.
  rewrite lookup_app_l by (rewrite length_take; lia).
  by rewrite lookup_take_lt by lia.
Qed.

Lemma copy_same_below p node w src :
  0 ≤ w_off w → 0 ≤ w_len w → w_off w + w_len w ≤ bcap node →
  p ≤ w_off w → same_below p node (copy node w src).
Proof.
  intros Hoff Hlen Hcap Hp.
  split; [by apply blen_copy|]. split; [by apply bcap_copy|].
  intros j Hj. apply read_byte_copy_below; [done..|lia].
Qed.

(** The bytes [copy] has just written. *)
Lemma read_copy node w src :
  0 ≤ w_off w → len src ≤ w_len w → w_off w + w_len w ≤ bcap node →
  read (copy node w src) (mkWindow (w_off w) (len src)) = src.
Proof.
  intros Hoff Hlen Hcap. unfold read. cbn [w_off w_len].
  rewrite backing_copy. unfold bcap, len in *.
  replace (Z.to_nat (Z.min (w_len w) (Z.of_nat (length src))))
    with (length src) by lia.
  rewrite firstn_all, Nat2Z.id.
  rewrite drop_app_length'; [|rewrite length_take; lia].
  apply take_app_length.
Qed.

(** A window reads the same from two nodes that agree on its bytes. *)
Lemma read_ext a b w :
  0 ≤ w_off w →
  (∀ j, w_off w ≤ j < w_off w + w_len w → read_byte b j = read_byte a j) →
  read b w = read a w.
Proof.
  intros Hoff Hsame. unfold read. apply list_eq. intros i.
  destruct (decide (i < Z.to_nat (w_len w))%nat) as [Hi|Hi].
  - rewrite !lookup_take_lt, !lookup_drop by done.
    specialize (Hsame (w_off w + Z.of_nat i) ltac:(lia)).
    unfold read_byte in Hsame.
    replace (Z.to_nat (w_off w + Z.of_nat i))
      with (Z.to_nat (w_off w) + i)%nat in Hsame by lia.
    destruct (backing b !! _), (backing a !! _); congruence.
  - by rewrite !lookup_take_ge by lia.
Qed.

Lemma Uint16_ext a b w :
  read_byte b (w_off w) = read_byte a (w_off w) →
  read_byte b (w_off w + 1) = read_byte a (w_off w + 1) →
  Uint16 b w = Uint16 a w.
Proof. intros H0 H1. unfold Uint16. by rewrite H0, H1. Qed.

Lemma Uint16_same_below p a b w :
  same_below p a b → 0 ≤ w_off w → w_off w + 2 ≤ p →
  Uint16 b w = Uint16 a w.
Proof.
  intros (_ & _ & Hb) Hoff Hp. apply Uint16_ext; apply Hb; lia.
Qed.

Lemma read16_same_below p a b pos :
  same_below p a b → 0 ≤ pos → pos + 2 ≤ p →
  (w ← slice_from b pos; Uint16 b w) = (w ← slice_from a pos; Uint16 a w).
Proof.
  intros Hsame Hpos Hp. pose proof Hsame as (Hl & _ & _).
  unfold slice_from. rewrite Hl. case_bool_decide; [|done].
  cbn [mbind result_bind]. by apply (Uint16_same_below p).
Qed.

Lemma nkeys_same_below p a b : same_below p a b → 4 ≤ p → nkeys b = nkeys a.
Proof.
  intros Hsame Hp. pose proof Hsame as (_ & Hc & _).
  unfold nkeys, slice_range. rewrite Hc. case_bool_decide; [|done].
  cbn [mbind result_bind]. apply (Uint16_same_below p); cbn; [done|lia..].
Qed.

Lemma btype_same_below p a b : same_below p a b → 4 ≤ p → btype b = btype a.
Proof.
  intros Hsame Hp. pose proof Hsame as (_ & Hc & _).
  unfold btype, slice_range. rewrite Hc. case_bool_decide; [|done].
  cbn [mbind result_bind]. apply (Uint16_same_below p); cbn; [done|lia..].
Qed.

Lemma getOffset_same_below p a b n j :
  same_below p a b → nkeys a = Ok n → 4 + 10 * n ≤ p → p ≤ 65536 →
  0 ≤ j ≤ n → getOffset b j = getOffset a j.
Proof.
  intros Hsame Hn Hp Hp' Hj. pose proof (nkeys_range _ _ Hn).
  unfold getOffset. case_bool_decide; [done|].
  rewrite (nkeys_same_below p a b) by (done || lia). rewrite Hn.
  cbn [mbind result_bind]. cbv zeta.
  apply (read16_same_below p); [done|apply u16_range|].
  rewrite u16_small by lia. lia.
Qed.

Lemma getPtr_same_below p a b n j :
  same_below p a b → nkeys a = Ok n → 4 + 10 * n ≤ p → p ≤ 65536 →
  0 ≤ j → getPtr b j = getPtr a j.
Proof.
  intros Hsame Hn Hp Hp' Hj. pose proof (nkeys_range _ _ Hn).
  unfold getPtr.
  rewrite (nkeys_same_below p a b) by (done || lia). rewrite Hn.
  cbn [mbind result_bind]. case_bool_decide; [|done].
  cbn [mbind result_bind assert]. cbv zeta.
  apply (read16_same_below p); [done|apply u16_range|].
  rewrite u16_small by lia. lia.
Qed.

Lemma getOffset_range node idx off :
  getOffset node idx = Ok off → 0 ≤ off < 65536.
Proof.
  unfold getOffset. case_bool_decide; [intros [= <-]; lia|].
  intros (n & _ & (w & _ & Hu)%bind_Ok)%bind_Ok.
  by apply Uint16_range in Hu.
Qed.

Lemma read_lookup node w i :
  (i < Z.to_nat (w_len w))%nat →
  read node w !! i = backing node !! (Z.to_nat (w_off w) + i)%nat.
Proof. intros Hi. unfold read. by rewrite lookup_take_lt, lookup_drop. Qed.

Lemma length_read node w :
  0 ≤ w_off w → 0 ≤ w_len w → w_off w + w_len w ≤ bcap node →
  length (read node w) = Z.to_nat (w_len w).
Proof.
  intros Hoff Hlen Hcap. unfold read, bcap in *.
  rewrite length_take, length_drop. lia.
Qed.

Lemma read_byte_Ok node j b :
  0 ≤ j → read_byte node j = Ok b → backing node !! Z.to_nat j = Some b.
Proof.
  intros Hj. unfold read_byte. destruct (backing node !! _); [|done].
  by intros [= ->].
Qed.

(** Two 16-bit stores side by side, read back as four bytes. *)
Lemma read_two_fields a wa v1 b wb v2 c :
  0 ≤ w_off wa → w_off wb = w_off wa + 2 → w_off wa + 4 ≤ bcap a →
  PutUint16 a wa v1 = Ok b → PutUint16 b wb v2 = Ok c →
  read c (mkWindow (w_off wa) 4) = le16 v1 ++ le16 v2.
Proof.
  intros Hoff Hwb Hcap Hput1 Hput2.
  pose proof (bcap_PutUint16 _ _ _ _ Hput1) as Hc1.
  pose proof (bcap_PutUint16 _ _ _ _ Hput2) as Hc2.
  apply PutUint16_Ok in Hput1 as (_ & ->).
  apply PutUint16_Ok in Hput2 as (_ & ->). rewrite Hwb in *.
  set (o := w_off wa) in *.
  apply (list_eq_same_length _ _ 4%nat); [done|by rewrite length_read by (cbn; lia)|].
  intros i x y Hi Hx Hy. rewrite read_lookup in Hx by (cbn; lia).
  cbn [w_off] in Hx.
  assert (Hb : ∀ j bb, read_byte
            (write_byte (write_byte (write_byte (write_byte a o (byte_of_Z v1))
               (o + 1) (byte_of_Z (Z.shiftr v1 8))) (o + 2) (byte_of_Z v2))
               (o + 2 + 1) (byte_of_Z (Z.shiftr v2 8))) j = Ok bb →
            j = o + Z.of_nat i → x = bb).
  { intros j bb Hr ->. apply read_byte_Ok in Hr; [|lia].
    replace (Z.to_nat (o + Z.of_nat i)) with (Z.to_nat o + i)%nat in Hr by lia.
    congruence. }
  destruct i as [|[|[|[|i]]]]; [| | |  |lia]; cbn in Hy; injection Hy as <-.
  - apply (Hb o); [|lia].
    rewrite !read_byte_write_byte_ne by lia.
    by rewrite read_byte_write_byte_eq by lia.
  - apply (Hb (o + 1)); [|lia].
    rewrite !read_byte_write_byte_ne by lia.
    by rewrite read_byte_write_byte_eq by (rewrite ?bcap_write_byte; lia).
  - apply (Hb (o + 2)); [|lia].
    rewrite !read_byte_write_byte_ne by lia.
    by rewrite read_byte_write_byte_eq by (rewrite ?bcap_write_byte; lia).
  - apply (Hb (o + 2 + 1)); [|lia].
    by rewrite read_byte_write_byte_eq by (rewrite ?bcap_write_byte; lia).
Qed.

(** [copy] leaves the bytes after the ones it wrote as they were. *)
Lemma read_byte_copy_above node w src j :
  0 ≤ w_off w → w_off w + w_len w ≤ bcap node → len src ≤ w_len w →
  w_off w + len src ≤ j → read_byte (copy node w src) j = read_byte node j.
Proof.
  intros Hoff Hcap Hlen Hj. unfold read_byte. rewrite backing_copy.
  unfold bcap, len in *.
  replace (Z.to_nat (Z.min (w_len w) (Z.of_nat (length src))))
    with (length src) by lia.
  rewrite firstn_all.
  rewrite lookup_app_r by (rewrite length_take; lia).
  rewrite lookup_app_r by (rewrite length_take; lia).
  rewrite lookup_drop, length_take.
  replace (Z.to_nat (w_off w) + length src
           + (Z.to_nat j - Z.to_nat (w_off w) `min` length (backing node)
              - length src))%nat with (Z.to_nat j) by lia.
  done.
Qed.

Lemma len_arg_bytes node a :
  view_within node a → len (arg_bytes node a) = arg_len a.
Proof.
  destruct a as [bs|w]; [done|]. intros (Hoff & Hlen & Hcap). cbn.
  unfold len. rewrite length_read by done. lia.
Qed.

(** A view shows the same bytes in two nodes that agree on it. *)
Lemma arg_bytes_ext a b arg :
  view_within a arg →
  (∀ w j, arg = Alias w → w_off w ≤ j < w_off w + w_len w →
          read_byte b j = read_byte a j) →
  arg_bytes b arg = arg_bytes a arg.
Proof.
  destruct arg as [bs|w]; [done|]. intros (Hoff & _) Hsame. cbn.
  apply read_ext; [done|]. intros j Hj. by apply (Hsame w).
Qed.

(** X17.  What [nodeAppendKV] does at a slot from 1 to [nkeys - 1] when the
    entry fits in the buffer and below 2^16, and the key and the value
    are memory of their own or views of the node that do not overlap what
    is written before they are copied: the pointer of the slot and the
    two size fields, and for the value also the place of the key.  It
    returns; the header and the other offsets are kept; the pointer is
    stored; at the slot's key-value position it writes the key length
    twice (as key_size and as val_size), then the key, then the value, as
    they were when it was called; and it adds the entry's size to the
    offset of that same slot. *)
Theorem nodeAppendKV_effect new idx ptr key val n off :
  nkeys new = Ok n → 1 ≤ idx < n → getOffset new idx = Ok off →
  0 ≤ ptr < 65536 →
  4 + 10 * n + off + 4 + arg_len key + arg_len val ≤ blen new →
  4 + 10 * n + off + 4 + arg_len key + arg_len val < 65536 →
  view_within new key → view_within new val →
  view_clear key (4 + 8 * idx) (4 + 8 * idx + 2) →
  view_clear key (4 + 10 * n + off) (4 + 10 * n + off + 4) →
  view_clear val (4 + 8 * idx) (4 + 8 * idx + 2) →
  view_clear val (4 + 10 * n + off) (4 + 10 * n + off + 4 + arg_len key) →
  ∃ new',
    nodeAppendKV_arg new idx ptr key val = Ok new'
    ∧ nkeys new' = Ok n ∧ btype new' = btype new
    ∧ getPtr new' idx = Ok ptr
    ∧ getOffset new' idx = Ok (off + 4 + arg_len key + arg_len val)
    ∧ (∀ j, 0 ≤ j ≤ n → j ≠ idx → getOffset new' j = getOffset new j)
    ∧ read new' (mkWindow (4 + 10 * n + off) 4)
      = le16 (arg_len key) ++ le16 (arg_len key)
    ∧ read new' (mkWindow (4 + 10 * n + off + 4) (arg_len key))
      = arg_bytes new key
    ∧ read new' (mkWindow (4 + 10 * n + off + 4 + arg_len key) (arg_len val))
      = arg_bytes new val.
Proof.
  intros Hn Hidx Hoff Hptr Hfit Hwrap Hkin Hvin Hkp Hks Hvp Hvs.
  set (kb := arg_bytes new key). set (vb := arg_bytes new val).
  assert (Hkl : arg_len key = len kb) by (symmetry; by apply len_arg_bytes).
  assert (Hvl : arg_len val = len vb) by (symmetry; by apply len_arg_bytes).
  rewrite Hkl in Hfit, Hwrap, Hvs |- *. rewrite Hvl in Hfit, Hwrap |- *.
  pose proof (getOffset_range _ _ _ Hoff) as Hoffr.
  pose proof (len_nonneg kb) as Hk. pose proof (len_nonneg vb) as Hv.
  pose proof (blen_le_bcap new) as Hcap.
  set (pos := 4 + 10 * n + off) in *.
  (* the pointer *)
  destruct (PutUint16_in new (mkWindow (4 + 8 * idx) (blen new - (4 + 8 * idx)))
              ptr ltac:(cbn; lia)) as [new1 Hput1].
  assert (Hset : setPtr new idx ptr = Ok new1).
  { unfold setPtr. rewrite Hn. cbn [mbind result_bind].
    rewrite bool_decide_eq_true_2 by lia. cbn [mbind result_bind assert].
    cbv zeta. rewrite u16_small by lia.
    rewrite slice_from_in by lia. done. }
  pose proof (blen_PutUint16 _ _ _ _ Hput1) as Hl1.
  pose proof (bcap_PutUint16 _ _ _ _ Hput1) as Hc1.
  assert (Hn1 : nkeys new1 = Ok n)
    by (rewrite <- Hn; eapply nkeys_PutUint16; [|exact Hput1]; cbn; lia).
  assert (Hoff1 : ∀ j, 0 ≤ j ≤ n → getOffset new1 j = getOffset new j).
  { intros j Hj. destruct (Z.eq_dec j 0) as [->|Hj0]; [done|].
    eapply getOffset_PutUint16_apart; [|exact Hn|done| |exact Hput1];
      cbn; [lia|]. rewrite u16_small by lia. lia. }
  (* the position of the entry *)
  assert (Hpos : kvPos new1 idx = Ok pos).
  { unfold kvPos. rewrite Hn1. cbn [mbind result_bind].
    rewrite bool_decide_eq_true_2 by lia. cbn [mbind result_bind assert].
    rewrite Hoff1, Hoff by lia. cbn [mbind result_bind].
    rewrite u16_small by lia. apply (f_equal Ok). lia. }
  (* the two sizes *)
  destruct (PutUint16_in new1 (mkWindow pos (blen new1 - pos))
              (u16 (len kb)) ltac:(cbn; lia)) as [new2 Hput2].
  pose proof (blen_PutUint16 _ _ _ _ Hput2) as Hl2.
  pose proof (bcap_PutUint16 _ _ _ _ Hput2) as Hc2.
  destruct (PutUint16_in new2 (mkWindow (pos + 2) (blen new2 - (pos + 2)))
              (u16 (len kb)) ltac:(cbn; lia)) as [new3 Hput3].
  pose proof (blen_PutUint16 _ _ _ _ Hput3) as Hl3.
  pose proof (bcap_PutUint16 _ _ _ _ Hput3) as Hc3.
  (* a view that is clear of the pointer and of the size fields shows,
     when it is copied, what it showed at the call *)
  assert (Hkeep : ∀ j, 0 ≤ j → ¬ 4 + 8 * idx ≤ j < 4 + 8 * idx + 2 →
                       ¬ pos ≤ j < pos + 4 →
                       read_byte new3 j = read_byte new j).
  { intros j Hj Hp Hs.
    transitivity (read_byte new2 j);
      [eapply read_byte_PutUint16_ne; [| | | |exact Hput3]; cbn; lia|].
    transitivity (read_byte new1 j);
      [eapply read_byte_PutUint16_ne; [| | | |exact Hput2]; cbn; lia|].
    eapply read_byte_PutUint16_ne; [| | | |exact Hput1]; cbn; lia. }
  assert (Hkey3 : arg_bytes new3 key = kb).
  { apply arg_bytes_ext; [done|]. intros w j -> Hj.
    cbn in Hkin, Hkp, Hks. apply Hkeep; lia. }
  (* the key and the value *)
  set (wk := mkWindow (pos + 4) (blen new3 - (pos + 4))).
  set (new4 := copy new3 wk kb).
  assert (Hl4 : blen new4 = blen new3) by (apply blen_copy; cbn; lia).
  assert (Hc4 : bcap new4 = bcap new3) by (apply bcap_copy; cbn; lia).
  assert (Hval4 : arg_bytes new4 val = vb).
  { apply arg_bytes_ext; [done|]. intros w j -> Hj.
    cbn in Hvin, Hvp, Hvs.
    transitivity (read_byte new3 j); [|apply Hkeep; lia].
    destruct (Z_lt_dec j (pos + 4)) as [Hlow|Hhigh].
    - apply read_byte_copy_below; cbn; lia.
    - apply read_byte_copy_above; cbn; lia. }
  set (wv := mkWindow (pos + 4 + len kb) (blen new4 - (pos + 4 + len kb))).
  set (new5 := copy new4 wv vb).
  assert (Hl5 : blen new5 = blen new4) by (apply blen_copy; cbn; lia).
  assert (Hc5 : bcap new5 = bcap new4) by (apply bcap_copy; cbn; lia).
  (* everything below the entry is as [setPtr] left it *)
  assert (Hbelow : same_below pos new1 new5).
  { apply (same_below_trans _ _ new2);
      [eapply PutUint16_same_below; [| |exact Hput2]; cbn; lia|].
    apply (same_below_trans _ _ new3);
      [eapply PutUint16_same_below; [| |exact Hput3]; cbn; lia|].
    apply (same_below_trans _ _ new4);
      apply copy_same_below; cbn; lia. }
  assert (Hn5 : nkeys new5 = Ok n)
    by (rewrite <- Hn1; apply (nkeys_same_below pos); [done|lia]).
  assert (Hoff5 : ∀ j, 0 ≤ j ≤ n → getOffset new5 j = getOffset new j).
  { intros j Hj. rewrite <- Hoff1 by done.
    apply (getOffset_same_below pos _ _ n); [done..|lia|lia|done]. }
  (* the offset *)
  set (q := 4 + 8 * n + 2 * (idx - 1)).
  destruct (PutUint16_in new5 (mkWindow q (blen new5 - q))
              (u16 (off + 4 + u16 (len kb + len vb))) ltac:(cbn; lia))
    as [new' Hput6].
  pose proof (blen_PutUint16 _ _ _ _ Hput6) as Hl6.
  pose proof (bcap_PutUint16 _ _ _ _ Hput6) as Hc6.
  assert (Hsetoff : setOffset new5 idx (u16 (off + 4 + u16 (len kb + len vb)))
                    = Ok new').
  { unfold setOffset, offsetPos. rewrite Hn5. cbn [mbind result_bind].
    rewrite !bool_decide_eq_true_2 by lia. cbn [mbind result_bind assert andb].
    rewrite (u16_small (4 + 8 * n + 2 * (idx - 1))) by lia. fold q.
    rewrite slice_from_in by lia. done. }
  assert (Hhigh : ∀ j, pos ≤ j → read_byte new' j = read_byte new5 j).
  { intros j Hj.
    eapply read_byte_PutUint16_ne; [| | | |exact Hput6]; cbn; lia. }
  exists new'. split.
  { unfold nodeAppendKV_arg. rewrite Hset.
    cbn [mbind result_bind]. rewrite Hpos. cbn [mbind result_bind].
    rewrite ?Hkl, ?Hvl.
    rewrite Z.add_0_r, (u16_small pos), (slice_from_in new1 pos) by lia.
    cbn [mbind result_bind]. rewrite Hput2. cbn [mbind result_bind].
    rewrite (u16_small (pos + 2)), (slice_from_in new2) by lia.
    cbn [mbind result_bind]. rewrite Hput3. cbn [mbind result_bind].
    rewrite (u16_small (pos + 4)), (slice_from_in new3) by lia.
    cbn [mbind result_bind]. cbv zeta. fold wk. rewrite Hkey3. fold new4.
    rewrite (u16_small (len kb)), (u16_small (pos + 4 + len kb)),
      (slice_from_in new4) by lia.
    cbn [mbind result_bind]. fold wv. rewrite Hval4. fold new5.
    rewrite Hoff5, Hoff by lia. cbn [mbind result_bind]. exact Hsetoff. }
  split.
  { rewrite <- Hn5. eapply nkeys_PutUint16; [|exact Hput6]; cbn; lia. }
  split.
  { transitivity (btype new5);
      [eapply btype_PutUint16; [|exact Hput6]; cbn; lia|].
    transitivity (btype new1);
      [apply (btype_same_below pos); [done|lia]|].
    eapply btype_PutUint16; [|exact Hput1]; cbn; lia. }
  split.
  { transitivity (getPtr new5 idx).
    { eapply getPtr_PutUint16_apart; [| |exact Hput6]; cbn; [lia|].
      rewrite u16_small by lia. lia. }
    transitivity (getPtr new1 idx);
      [apply (getPtr_same_below pos _ _ n); [done..|lia|lia|lia]|].
    by apply (getPtr_setPtr new). }
  split.
  { unfold getOffset. rewrite bool_decide_eq_false_2 by lia.
    assert (Hn6 : nkeys new' = Ok n)
      by (rewrite <- Hn5; eapply nkeys_PutUint16; [|exact Hput6]; cbn; lia).
    rewrite Hn6.
    cbn [mbind result_bind]. cbv zeta.
    rewrite (u16_small (4 + 8 * n + 2 * (idx - 1))) by lia. fold q.
    rewrite slice_from_in by lia. cbn [mbind result_bind].
    rewrite (u16_small (len kb + len vb)) in Hput6 by lia.
    rewrite (u16_small (off + 4 + (len kb + len vb))) in Hput6 by lia.
    rewrite Hl6.
    replace (off + 4 + len kb + len vb)
      with (off + 4 + (len kb + len vb)) by lia.
    eapply Uint16_PutUint16; [..|exact Hput6]; cbn; lia. }
  split.
  { intros j Hj Hne. rewrite <- Hoff5 by done.
    destruct (Z.eq_dec j 0) as [->|Hj0]; [done|].
    eapply getOffset_PutUint16_apart; [|exact Hn5|done| |exact Hput6];
      cbn; [lia|]. rewrite u16_small by lia. fold q. unfold q. lia. }
  split.
  { transitivity (read new5 (mkWindow pos 4));
      [apply read_ext; cbn; [lia|]; intros j Hj; apply Hhigh; lia|].
    transitivity (read new3 (mkWindow pos 4)).
    { apply read_ext; cbn; [lia|]. intros j Hj.
      assert (Hs : same_below (pos + 4) new3 new5).
      { apply (same_below_trans _ _ new4); apply copy_same_below; cbn; lia. }
      destruct Hs as (_ & _ & Hs). apply Hs. lia. }
    rewrite <- (u16_small (len kb)) by lia.
    apply (read_two_fields new1 (mkWindow pos (blen new1 - pos)) _ new2
             (mkWindow (pos + 2) (blen new2 - (pos + 2))));
      cbn; try done; lia. }
  split.
  { transitivity (read new5 (mkWindow (pos + 4) (len kb)));
      [apply read_ext; cbn; [lia|]; intros j Hj; apply Hhigh; lia|].
    transitivity (read new4 (mkWindow (pos + 4) (len kb))).
    { apply read_ext; cbn; [lia|]. intros j Hj.
      assert (Hs : same_below (pos + 4 + len kb) new4 new5)
        by (apply copy_same_below; cbn; lia).
      destruct Hs as (_ & _ & Hs). apply Hs. lia. }
    apply (read_copy new3 wk kb); cbn; lia. }
  transitivity (read new5 (mkWindow (pos + 4 + len kb) (len vb)));
    [apply read_ext; cbn; [lia|]; intros j Hj; apply Hhigh; lia|].
  apply (read_copy new4 wv vb); cbn; lia.
Qed.

(** X20.  The condition of X17 on views is needed.  On a fresh three-slot
    leaf, [nodeAppendKV] at slot 1 whose key is the view [new[34:36]] of
    the node it writes, which shows [00 00] at the call, stores as the key
    (bytes 38 and 39) the [02 00] of the key size it has just written at
    bytes 34 and 35: [copy] reads the view after the size fields are
    set. *)
Example nodeAppendKV_overlapping_key_copies_size :
  arg_bytes fresh3 (Alias (mkWindow 34 2)) = [x00; x00]
  ∧ (node ← nodeAppendKV_arg fresh3 1 0 (Alias (mkWindow 34 2)) (Own []);
     Ok (read node (mkWindow 34 6)))
    = Ok [x02; x00; x02; x00; x02; x00].
Proof. split; vm_compute; reflexivity. Qed.

(** ** The commit protocol and file creation, continued *)

Section MoreCommitFacts.

Import io.

Context {St Sys : Type}.
Variable writePages : KV St → Sys → KV St * Sys * option error.
Variable Fsync : Z → Sys → Sys * option error.
Variable updateRoot : KV St → Sys → KV St * Sys * option error.

#[local] Abbreviation updateFile := (updateFile writePages Fsync updateRoot).


End MoreCommitFacts.

Section CreateFileFacts.

Import io_file.

Context {Sys : Type}.
Variables O_RDONLY O_DIRECTORY O_RDWR O_CREATE : Z.
Variables path_Dir path_Base : string → string.
Variable Errorf : string → error → error.
Variable sys_Open : string → Z → Z → Sys → Sys * (Z * option error).
Variable sys_Openat :
  Z → string → Z → Z → Sys → Sys * (Z * option error).
Variable sys_Close : Z → Sys → Sys * option error.

#[local] Abbreviation createFileSync :=
  (createFileSync O_RDONLY O_DIRECTORY O_RDWR O_CREATE path_Dir path_Base
                  Errorf sys_Open sys_Openat sys_Close).


End CreateFileFacts.

(** ** Worked instances *)

(** A fresh page given the header (leaf, 3). *)
Lemma setHeader_round_trip_witness :
  ∃ node',
    setHeader (make 4096) BNODE_LEAF 3 = Ok node'
    ∧ btype node' = Ok BNODE_LEAF ∧ nkeys node' = Ok 3.
Proof.
  eexists. split; [vm_compute; reflexivity|].
  refine (let H := setHeader_round_trip (make 4096) BNODE_LEAF 3 _
                     _ _ _ in conj (proj1 H) (proj1 (proj2 H)));
    [by vm_compute..|vm_compute; reflexivity].
Defined.

(** Storing 7 in slot 0 of [parent] leaves slot 1 at 6. *)
Lemma setPtr_frame_witness :
  ∃ node', setPtr parent 0 7 = Ok node' ∧ getPtr node' 1 = getPtr parent 1.
Proof.
  eexists. split; [vm_compute; reflexivity|].
  refine (proj2 (proj2 (proj2 (proj2
            (setPtr_frame parent 0 7 _ _)))) 1 _ _ _);
    [vm_compute; reflexivity|lia..].
Defined.

(** Setting the first offset of [parent] to 40. *)
Lemma setOffset_round_trip_witness :
  ∃ node', setOffset parent 1 40 = Ok node' ∧ getOffset node' 1 = Ok 40.
Proof.
  eexists. split; [vm_compute; reflexivity|].
  refine (proj1 (setOffset_round_trip parent 1 40 _ 2 _ _ _ _));
    [vm_compute; reflexivity|lia..|vm_compute; reflexivity].
Defined.

(** The append of the claims' example, at slot 1 of three. *)
Lemma nodeAppendKV_slot_bounds_witness :
  ∃ n, nkeys fresh3 = Ok n ∧ 1 ≤ 1 < n.
Proof.
  eapply (nodeAppendKV_slot_bounds fresh3 1 0 ["k"%byte]
            ["v"%byte; "w"%byte]).
  vm_compute. reflexivity.
Defined.

(** [small_leaf] fits in a page and comes back alone. *)
Lemma nodeSplit3_returns_iff_witness :
  ∃ r, nodeSplit3 small_leaf = Ok r ∧ r.1 = 1.
Proof.
  eexists. split.
  - apply nodeSplit3_returns_iff. exists 500.
    split; [vm_compute; reflexivity|].
    split; [by vm_compute|]. split; [by vm_compute|reflexivity].
  - reflexivity.
Defined.

(** Splicing [small_leaf] in as child 0 of [parent]. *)
Lemma nodeReplaceKidN_with_kids_fails_witness :
  fails (nodeReplaceKidN tree0 (make 8192) parent 0 [small_leaf]).
Proof. apply nodeReplaceKidN_with_kids_fails; [lia|done]. Defined.

(** The only return of [Insert]: a 1000-byte key with a 3000-byte
    value. *)
Lemma Insert_returns_only_size_error_witness :
  len (replicate 1000 "k"%byte) > 999 ∧ len (replicate 3000 "v"%byte) > 2999.
Proof.
  refine (proj2 (Insert_returns_only_size_error 1 tree0
                   (replicate 1000 "k"%byte) (replicate 3000 "v"%byte)
                   (tree0, Some "length of key or value too large!"%string)
                   _)).
  vm_compute. reflexivity.
Defined.

(** Under [parent], the 4000-byte right sibling is picked for the
    500-byte child. *)
Lemma shouldMerge_right_whatever_size_witness :
  shouldMerge tree0 parent 0 small_leaf
  = Ok (mkBTree 4 (mkMemStore (pages store0) 7 [Get 6]), (1, big_leaf)).
Proof.
  apply (shouldMerge_right_whatever_size tree0 _ parent small_leaf
           500 2 6 big_leaf 2);
    [vm_compute; reflexivity|by vm_compute|vm_compute; reflexivity|lia
    |vm_compute; reflexivity|vm_compute; reflexivity|vm_compute; reflexivity
    |by right].
Defined.

(** And [nodeDelete] then hands back a zeroed page: page 5 is freed,
    page 6 is read and kept, and the merge helpers, here two that would
    panic, are never called. *)
Lemma nodeDelete_merge_right_returns_zero_page_witness :
  nodeDelete_splice (λ _ _ _, Panic) (λ _ _ _ _ _, Panic)
                    tree0 parent 0 5 small_leaf
  = Ok (mkBTree 4 (mkMemStore (delete 5 (pages store0)) 7 [Del 5; Get 6]),
        make BTREE_PAGE_SIZE).
Proof.
  apply (nodeDelete_merge_right_returns_zero_page _ _ tree0
           (mkBTree 4 (mkMemStore (delete 5 (pages store0)) 7 [Del 5]))
           _ parent 0 5 small_leaf 1 big_leaf);
    [by vm_compute|vm_compute; reflexivity|vm_compute; reflexivity|lia].
Defined.

(** Looking "m" up in [parent] stops at slot 1. *)
Lemma nodeLookupLE_scans_in_order_witness :
  ∃ j, 0 ≤ j ≤ 2
    ∧ (∀ i, 0 ≤ i < j →
         ∃ k, getKey parent i = Ok k ∧ bytes_Compare k ["m"%byte] < 0)
    ∧ ((j < 2 ∧ getKey parent j = Ok ["m"%byte] ∧ 1 = j)
       ∨ (j < 2
          ∧ (∃ k, getKey parent j = Ok k ∧ bytes_Compare k ["m"%byte] > 0)
          ∧ 1 = u16 (j - 1))
       ∨ (j = 2 ∧ 1 = u16 (j - 1))).
Proof.
  apply (nodeLookupLE_scans_in_order parent ["m"%byte] 2 1);
    vm_compute; reflexivity.
Defined.

(** Looking "a" up in [other_leaf], whose only key is "z". *)
Lemma nodeLookupLE_below_all_keys_witness :
  nodeLookupLE other_leaf ["a"%byte] = Ok 65535
  ∧ getKey other_leaf 65535 = Panic.
Proof.
  apply (nodeLookupLE_below_all_keys other_leaf ["a"%byte] 1);
    [vm_compute; reflexivity|].
  right. exists ["z"%byte]. split; [vm_compute; reflexivity|by vm_compute].
Defined.

(** A leaf of two items, "a" with "1" and "c" with "2", in a 64-byte
    buffer. *)
Lemma header_getters_decode_format_witness :
  btype (node_of BNODE_LEAF
           [mkItem 0 ["a"%byte] ["1"%byte]; mkItem 0 ["c"%byte] ["2"%byte]]
           (replicate 28 x00) []) = Ok BNODE_LEAF
  ∧ nkeys (node_of BNODE_LEAF
             [mkItem 0 ["a"%byte] ["1"%byte]; mkItem 0 ["c"%byte] ["2"%byte]]
             (replicate 28 x00) []) = Ok 2
  ∧ nbytes (node_of BNODE_LEAF
              [mkItem 0 ["a"%byte] ["1"%byte]; mkItem 0 ["c"%byte] ["2"%byte]]
              (replicate 28 x00) []) = Ok 36.
Proof.
  apply (header_getters_decode_format BNODE_LEAF
           [mkItem 0 ["a"%byte] ["1"%byte]; mkItem 0 ["c"%byte] ["2"%byte]]);
    by vm_compute.
Defined.

Lemma slot_getters_decode_format_witness :
  getKey (node_of BNODE_NODE
            [mkItem 5 [] []; mkItem 65542 ["m"%byte] []] [] []) 1
  = Ok ["m"%byte]
  ∧ getValue (node_of BNODE_NODE
                [mkItem 5 [] []; mkItem 65542 ["m"%byte] []] [] []) 1
    = Ok []
  ∧ getOffset (node_of BNODE_NODE
                 [mkItem 5 [] []; mkItem 65542 ["m"%byte] []] [] []) 1
    = Ok 4
  ∧ getPtr (node_of BNODE_NODE
              [mkItem 5 [] []; mkItem 65542 ["m"%byte] []] [] []) 1
    = Ok 6.
Proof.
  apply (slot_getters_decode_format BNODE_NODE
           [mkItem 5 [] []; mkItem 65542 ["m"%byte] []] [] [] 1
           (mkItem 65542 ["m"%byte] []));
    by vm_compute.
Defined.

Lemma nodeLookupLE_finds_present_key_witness :
  nodeLookupLE
    (node_of BNODE_LEAF
       [mkItem 0 ["a"%byte] ["1"%byte]; mkItem 0 ["c"%byte] ["2"%byte]]
       (replicate 28 x00) []) ["c"%byte]
  = Ok 1.
Proof.
  apply (nodeLookupLE_finds_present_key BNODE_LEAF
           [mkItem 0 ["a"%byte] ["1"%byte]; mkItem 0 ["c"%byte] ["2"%byte]]
           (replicate 28 x00) [] 1 (mkItem 0 ["c"%byte] ["2"%byte]));
    [by vm_compute..|].
  intros [|i] e' Hi He'; [|lia]. injection He' as <-. by vm_compute.
Defined.

(** "b" is not there: the lookup answers slot 0, the slot of "a". *)
Lemma nodeLookupLE_returns_slot_before_greater_key_witness :
  nodeLookupLE
    (node_of BNODE_LEAF
       [mkItem 0 ["a"%byte] ["1"%byte]; mkItem 0 ["c"%byte] ["2"%byte]]
       (replicate 28 x00) []) ["b"%byte]
  = Ok (u16 (1 - 1)).
Proof.
  apply (nodeLookupLE_returns_slot_before_greater_key BNODE_LEAF
           [mkItem 0 ["a"%byte] ["1"%byte]; mkItem 0 ["c"%byte] ["2"%byte]]
           (replicate 28 x00) [] ["b"%byte] 1);
    [by vm_compute..|cbn; lia| |].
  - intros [|i] e Hi He; [|lia]. injection He as <-. by vm_compute.
  - intros e [= <-]. by vm_compute.
Defined.

(** An append whose key is a view of the node it writes: the first two
    bytes of a fresh three-slot leaf, its type tag [02 00], as the key of
    slot 1, with the value "vw".  The view is clear of the pointer of the
    slot (bytes 12 and 13) and of the size fields (bytes 34 to 37). *)
Lemma nodeAppendKV_effect_witness :
  ∃ new',
    nodeAppendKV_arg fresh3 1 0 (Alias (mkWindow 0 2))
                     (Own ["v"%byte; "w"%byte]) = Ok new'
    ∧ getOffset new' 1 = Ok 8
    ∧ read new' (mkWindow 34 4) = [x02; x00; x02; x00]
    ∧ read new' (mkWindow 38 2) = [x02; x00]
    ∧ read new' (mkWindow 40 2) = ["v"%byte; "w"%byte].
Proof.
  destruct (nodeAppendKV_effect fresh3 1 0 (Alias (mkWindow 0 2))
              (Own ["v"%byte; "w"%byte]) 3 0)
    as (new' & Happ & _ & _ & _ & Hoff & _ & Hsizes & Hkey & Hval);
    [vm_compute; reflexivity|lia|vm_compute; reflexivity|lia
    |by vm_compute|by vm_compute|by vm_compute|exact I
    |left; cbn; lia|left; cbn; lia|exact I|exact I|].
  exists new'. split; [exact Happ|]. split; [exact Hoff|].
  split; [exact Hsizes|]. split; [exact Hkey|exact Hval].
Defined.
